(** * A shallow embedding of [cli_task_manager.py]

    The program is a one-shot command line tool: [main] loads the task
    list and the id counter from [tasks.json], runs one of the commands
    [add], [list], [view], [edit], and writes the file back after a
    mutating command.

    The embedding keeps the values of the program as Python has them
    (JSON values: [None], booleans, integers, strings, lists and
    dictionaries in insertion order), the exceptions the dynamic
    operations of the source can raise, the file on disk and the lines
    printed.  Numbers with a fraction or an exponent are outside the
    model.  The typed [Document] of the design is related to these
    values by [tasks_obj] and [stored].

    The resources of [idempotent_function.py] are objects in a heap;
    their functions and properties come last. *)

From Stdlib Require Import ZArith Lia.
From stdpp Require Import list strings.

Local Open Scope string_scope.
Local Open Scope Z_scope.
Local Set Warnings "-register-all".

(** ** Python values *)

Inductive pyval : Type :=
| PNone
| PBool (b : bool)
| PInt (n : Z)
| PStr (s : string)
| PList (items : list pyval)
| PDict (entries : list (string * pyval)).

Inductive pyexn : Type :=
| JSONDecodeError
| AttributeError
| TypeError
| KeyError.

(** [bool(v)], the test behind [if v:] and [not v]. *)
Definition truthy (v : pyval) : bool :=
  match v with
  | PNone => false
  | PBool b => b
  | PInt n => negb (n =? 0)
  | PStr s => negb (String.eqb s EmptyString)
  | PList items => match items with [] => false | _ :: _ => true end
  | PDict entries => match entries with [] => false | _ :: _ => true end
  end.

Fixpoint dict_get (entries : list (string * pyval)) (key : string) : option pyval :=
  match entries with
  | [] => None
  | (k, v) :: rest => if String.eqb k key then Some v else dict_get rest key
  end.

(** [d[key] = v] on a dictionary: an existing key keeps its place. *)
Fixpoint dict_set (entries : list (string * pyval)) (key : string) (v : pyval)
  : list (string * pyval) :=
  match entries with
  | [] => [(key, v)]
  | (k, w) :: rest =>
      if String.eqb k key then (k, v) :: rest else (k, w) :: dict_set rest key v
  end.

(** [v[key]] for a string key. *)
Definition getitem (v : pyval) (key : string) : pyexn + pyval :=
  match v with
  | PDict entries =>
      match dict_get entries key with
      | Some x => inr x
      | None => inl KeyError
      end
  | _ => inl TypeError
  end.

(** [v.get(key, default)]: only dictionaries have the method. *)
Definition get_default (v : pyval) (key : string) (default : pyval) : pyexn + pyval :=
  match v with
  | PDict entries =>
      match dict_get entries key with
      | Some x => inr x
      | None => inr default
      end
  | _ => inl AttributeError
  end.

(** The elements [for x in v] runs through. *)
Definition iterate (v : pyval) : pyexn + list pyval :=
  match v with
  | PList items => inr items
  | PDict entries => inr (map (fun kv => PStr (fst kv)) entries)
  | PStr s => inr (map (fun c => PStr (String c EmptyString)) (String.list_ascii_of_string s))
  | _ => inl TypeError
  end.

(** [v == n] for an integer [n]; [True == 1] and [False == 0] in Python. *)
Definition eq_int (v : pyval) (n : Z) : bool :=
  match v with
  | PInt m => m =? n
  | PBool b => Z.b2z b =? n
  | _ => false
  end.

(** [v.append(x)]: only lists have the method. *)
Definition append (v x : pyval) : pyexn + pyval :=
  match v with
  | PList items => inr (PList (items ++ [x]))
  | _ => inl AttributeError
  end.

(** [v + 1], the right-hand side of [next_id += 1]. *)
Definition plus_one (v : pyval) : pyexn + pyval :=
  match v with
  | PInt n => inr (PInt (n + 1))
  | PBool b => inr (PInt (Z.b2z b + 1))
  | _ => inl TypeError
  end.

(** ** The world of one invocation *)

(** What [tasks.json] holds when it exists: text that [json.load]
    rejects, or the value [json.load] returns for it. *)
Inductive file_content : Type :=
| Garbled
| Json (data : pyval).

(** The file system as far as the program sees it: [None] when
    [os.path.exists(TASKS_FILE)] is false. *)
Definition disk : Type := option file_content.

(** A printed line is an f-string: literal text and interpolated values. *)
Inductive frag : Type :=
| Lit (s : string)
| Fmt (v : pyval).

Definition line : Type := list frag.

(** The parsed command line, [args]. *)
Record Namespace : Type := {
  arg_command : string;
  arg_description : option string;
  arg_estimate : option Z;
  arg_id : option Z
}.

(** The locals [tasks] and [next_id] of [main], the file and the output. *)
Record Frame : Type := {
  tasks : pyval;
  next_id : pyval;
  file : disk;
  stdout : list line
}.

(** ** State and exception monad *)

Definition Py (A : Type) : Type := Frame -> Frame * (pyexn + A).

Definition ret {A} (a : A) : Py A := fun s => (s, inr a).

Definition bind {A B} (m : Py A) (k : A -> Py B) : Py B :=
  fun s =>
    match m s with
    | (s', inr a) => k a s'
    | (s', inl e) => (s', inl e)
    end.

Notation "'do' x <- m ; k" := (bind m (fun x => k))
  (at level 10, x name, m at level 100, k at level 200).
Notation "'run' m ; k" := (bind m (fun _ => k))
  (at level 10, m at level 100, k at level 200).

Definition lift {A} (r : pyexn + A) : Py A := fun s => (s, r).

Definition get_tasks : Py pyval := fun s => (s, inr (tasks s)).
Definition get_next_id : Py pyval := fun s => (s, inr (next_id s)).

Definition set_tasks (v : pyval) : Py unit :=
  fun s => ({| tasks := v; next_id := next_id s; file := file s; stdout := stdout s |}, inr tt).

Definition set_next_id (v : pyval) : Py unit :=
  fun s => ({| tasks := tasks s; next_id := v; file := file s; stdout := stdout s |}, inr tt).

Definition print (l : line) : Py unit :=
  fun s => ({| tasks := tasks s; next_id := next_id s; file := file s;
               stdout := stdout s ++ [l] |}, inr tt).

(** ** The store *)

Definition load_tasks (fs : disk) : pyexn + (pyval * pyval) :=
  match fs with
  | Some content =>
      match content with
      | Garbled => inl JSONDecodeError
      | Json data =>
          match get_default data "tasks" (PList []) with
          | inl e => inl e
          | inr t =>
              match get_default data "next_id" (PInt 1) with
              | inl e => inl e
              | inr n => inr (t, n)
              end
          end
      end
  | None => inr (PList [], PInt 1)
  end.

(** [save_tasks(tasks, next_id)] as [main] calls it, on its own locals.
    The file is kept as the value [json.load] will return for the text
    [json.dump] writes, which for these values is the value dumped. *)
Definition save_tasks : Py unit :=
  fun s => ({| tasks := tasks s; next_id := next_id s;
               file := Some (Json (PDict [("tasks", tasks s); ("next_id", next_id s)]));
               stdout := stdout s |}, inr tt).

(** ** The command handler *)

(** The search loop of [view] and [edit].  [found_task] is a reference
    to an element of the list, kept here as its index. *)
Fixpoint find_task (items : list pyval) (i : Z) : pyexn + option nat :=
  match items with
  | [] => inr None
  | task :: rest =>
      match getitem task "id" with
      | inl e => inl e
      | inr v =>
          if eq_int v i then inr (Some 0%nat)
          else match find_task rest i with
               | inr (Some k) => inr (Some (S k))
               | r => r
               end
      end
  end.

(** The object [found_task] refers to.  The loop only finds an element
    when [tasks] is a list (the elements of a dictionary or a string are
    strings, and subscripting the first one raises), so the other
    branches are never taken. *)
Definition found_task (k : nat) : Py pyval :=
  fun s =>
    match tasks s with
    | PList items =>
        match items !! k with
        | Some t => (s, inr t)
        | None => (s, inl TypeError)
        end
    | _ => (s, inl TypeError)
    end.

(** [found_task[key] = v]: the write goes to the element of [tasks]. *)
Definition found_task_set (k : nat) (key : string) (v : pyval) : Py unit :=
  fun s =>
    match tasks s with
    | PList items =>
        match items !! k with
        | Some (PDict entries) =>
            ({| tasks := PList (<[k := PDict (dict_set entries key v)]> items);
                next_id := next_id s; file := file s; stdout := stdout s |}, inr tt)
        | _ => (s, inl TypeError)
        end
    | _ => (s, inl TypeError)
    end.

Definition cmd_add (args : Namespace) : Py unit :=
  match arg_description args with
  | None | Some EmptyString =>
      print [Lit "Error: Task description is required for 'add' command."]
  | Some description =>
      let continue (estimate : Z) : Py unit :=
        do n <- get_next_id;
        let task := PDict [("id", n);
                           ("description", PStr description);
                           ("estimate", PInt estimate)] in
        do t <- get_tasks;
        do t' <- lift (append t task);
        run set_tasks t';
        do n' <- lift (plus_one n);
        run set_next_id n';
        run save_tasks;
        do d <- lift (getitem task "description");
        do i <- lift (getitem task "id");
        do e <- lift (getitem task "estimate");
        run print [Lit "Task '"; Fmt d; Lit "' added with ID "; Fmt i;
                   Lit " and estimate "; Fmt e; Lit " hours."];
        save_tasks in
      match arg_estimate args with
      | Some e =>
          if e <? 0 then print [Lit "Error: Estimate cannot be negative."]
          else continue e
      | None => continue 0
      end
  end.

Fixpoint print_tasks (items : list pyval) : Py unit :=
  match items with
  | [] => ret tt
  | task :: rest =>
      do i <- lift (getitem task "id");
      do d <- lift (getitem task "description");
      do e <- lift (getitem task "estimate");
      run print [Lit "  ID: "; Fmt i; Lit ", Description: "; Fmt d;
                 Lit ", Estimate: "; Fmt e; Lit " hours"];
      print_tasks rest
  end.

Definition cmd_list : Py unit :=
  do t <- get_tasks;
  if negb (truthy t) then print [Lit "No tasks found."]
  else
    run print [Lit "Tasks:"];
    do items <- lift (iterate t);
    print_tasks items.

Definition not_found (i : Z) : line :=
  [Lit "Error: Task with ID "; Fmt (PInt i); Lit " not found."].

Definition cmd_view (args : Namespace) : Py unit :=
  match arg_id args with
  | None | Some 0 =>
      print [Lit "Error: Task ID is required for 'view' command."]
  | Some i =>
      do t <- get_tasks;
      do items <- lift (iterate t);
      do found <- lift (find_task items i);
      match found with
      | Some k =>
          do task <- found_task k;
          if truthy task then
            do a <- lift (getitem task "id");
            run print [Lit "Task ID: "; Fmt a];
            do d <- lift (getitem task "description");
            run print [Lit "Description: "; Fmt d];
            do e <- lift (getitem task "estimate");
            print [Lit "Estimate: "; Fmt e; Lit " hours"]
          else print (not_found i)
      | None => print (not_found i)
      end
  end.

Definition cmd_edit (args : Namespace) : Py unit :=
  match arg_id args with
  | None | Some 0 =>
      print [Lit "Error: Task ID is required for 'edit' command."]
  | Some i =>
      do t <- get_tasks;
      do items <- lift (iterate t);
      do found <- lift (find_task items i);
      match found with
      | Some k =>
          do task <- found_task k;
          if truthy task then
            run match arg_description args with
                | None | Some EmptyString => ret tt
                | Some description =>
                    found_task_set k "description" (PStr description)
                end;
            let finish : Py unit :=
              run save_tasks;
              do task' <- found_task k;
              do a <- lift (getitem task' "id");
              print [Lit "Task "; Fmt a; Lit " updated."] in
            match arg_estimate args with
            | Some e =>
                if e <? 0 then print [Lit "Error: Estimate cannot be negative."]
                else
                  run found_task_set k "estimate" (PInt e);
                  finish
            | None => finish
            end
          else print (not_found i)
      | None => print (not_found i)
      end
  end.

Definition dispatch (args : Namespace) : Py unit :=
  if String.eqb (arg_command args) "add" then cmd_add args
  else if String.eqb (arg_command args) "list" then cmd_list
  else if String.eqb (arg_command args) "view" then cmd_view args
  else if String.eqb (arg_command args) "edit" then cmd_edit args
  else print [Lit "Unknown command: "; Fmt (PStr (arg_command args))].

(** What one invocation leaves behind: the locals of [main] when it
    stopped ([None] when [load_tasks] raised before they were bound),
    the file, the output, and the uncaught exception if there was one. *)
Record Run : Type := {
  locals : option (pyval * pyval);
  disk_after : disk;
  printed : list line;
  raised : option pyexn
}.

Definition main (args : Namespace) (fs : disk) : Run :=
  match load_tasks fs with
  | inl e =>
      {| locals := None; disk_after := fs; printed := []; raised := Some e |}
  | inr (t, n) =>
      let '(s, r) := dispatch args {| tasks := t; next_id := n; file := fs; stdout := [] |} in
      {| locals := Some (tasks s, next_id s);
         disk_after := file s;
         printed := stdout s;
         raised := match r with inl e => Some e | inr _ => None end |}
  end.

(** ** The typed document of the design *)

Record Task : Type := {
  task_id : Z;
  task_description : string;
  task_estimate : Z
}.

Record Document : Type := {
  doc_tasks : list Task;
  doc_next_id : Z
}.

Definition empty_document : Document := {| doc_tasks := []; doc_next_id := 1 |}.

(** The dictionary [main] builds for a task, keys in the order of the source. *)
Definition task_obj (t : Task) : pyval :=
  PDict [("id", PInt (task_id t));
         ("description", PStr (task_description t));
         ("estimate", PInt (task_estimate t))].

Definition tasks_obj (ts : list Task) : pyval := PList (task_obj <$> ts).

(** The locals of [main] that hold a document. *)
Definition doc_locals (d : Document) : pyval * pyval :=
  (tasks_obj (doc_tasks d), PInt (doc_next_id d)).

(** The file [save_tasks] writes for a document. *)
Definition stored (d : Document) : disk :=
  Some (Json (PDict [("tasks", tasks_obj (doc_tasks d));
                     ("next_id", PInt (doc_next_id d))])).

(** The file system holds document [d]: [load_tasks] returns it. *)
Definition holds (fs : disk) (d : Document) : Prop :=
  load_tasks fs = inr (doc_locals d).

Definition cli (c : string) (d : option string) (e i : option Z) : Namespace :=
  {| arg_command := c; arg_description := d; arg_estimate := e; arg_id := i |}.

(** The data model of the design: ids are positive and [next_id] lies
    above every id in use. *)
Definition positive_ids (d : Document) : Prop :=
  Forall (fun t => 0 < task_id t) (doc_tasks d).

Definition valid_document (d : Document) : Prop :=
  0 < doc_next_id d /\
  Forall (fun t => 0 < task_id t < doc_next_id d) (doc_tasks d).

(** The first task carrying id [i], as the search loop meets it. *)
Fixpoint index_of (ts : list Task) (i : Z) : option nat :=
  match ts with
  | [] => None
  | t :: rest => if task_id t =? i then Some 0%nat else S <$> index_of rest i
  end.

Definition with_description (t : Task) (s : string) : Task :=
  {| task_id := task_id t; task_description := s; task_estimate := task_estimate t |}.

Definition with_estimate (t : Task) (e : Z) : Task :=
  {| task_id := task_id t; task_description := task_description t; task_estimate := e |}.

Definition with_tasks (d : Document) (ts : list Task) : Document :=
  {| doc_tasks := ts; doc_next_id := doc_next_id d |}.

(** The description [edit] leaves in the task: an absent or empty
    [--description] falls through the test [if args.description:]. *)
Definition apply_description (desc : option string) (t : Task) : Task :=
  match desc with
  | None | Some EmptyString => t
  | Some s => with_description t s
  end.

(** The lines of the source, named. *)
Definition description_required : line :=
  [Lit "Error: Task description is required for 'add' command."].
Definition estimate_negative : line :=
  [Lit "Error: Estimate cannot be negative."].
Definition id_required (c : string) : line :=
  [Lit ("Error: Task ID is required for '" ++ c ++ "' command.")].
Definition added_line (t : Task) : line :=
  [Lit "Task '"; Fmt (PStr (task_description t)); Lit "' added with ID ";
   Fmt (PInt (task_id t)); Lit " and estimate "; Fmt (PInt (task_estimate t));
   Lit " hours."].
Definition list_line (t : Task) : line :=
  [Lit "  ID: "; Fmt (PInt (task_id t)); Lit ", Description: ";
   Fmt (PStr (task_description t)); Lit ", Estimate: ";
   Fmt (PInt (task_estimate t)); Lit " hours"].
Definition view_lines (t : Task) : list line :=
  [[Lit "Task ID: "; Fmt (PInt (task_id t))];
   [Lit "Description: "; Fmt (PStr (task_description t))];
   [Lit "Estimate: "; Fmt (PInt (task_estimate t)); Lit " hours"]].
Definition updated_line (i : Z) : line :=
  [Lit "Task "; Fmt (PInt i); Lit " updated."].

(** The error kinds of the design, as the messages that report them. *)
Definition ValidationError (out : list line) : Prop :=
  out = [description_required] \/ out = [estimate_negative].
Definition NotFoundError (i : Z) (out : list line) : Prop :=
  out = [not_found i].

(** The new task [add] builds. *)
Definition new_task (d : Document) (s : string) (e : Z) : Task :=
  {| task_id := doc_next_id d; task_description := s; task_estimate := e |}.

Definition added (d : Document) (s : string) (e : Z) : Document :=
  {| doc_tasks := doc_tasks d ++ [new_task d s e]; doc_next_id := doc_next_id d + 1 |}.

(** The outcome of [main] once [load_tasks] has returned. *)
Definition finish (p : Frame * (pyexn + unit)) : Run :=
  {| locals := Some (tasks (fst p), next_id (fst p));
     disk_after := file (fst p);
     printed := stdout (fst p);
     raised := match snd p with inl e => Some e | inr _ => None end |}.

Definition start (fs : disk) (d : Document) : Frame :=
  {| tasks := tasks_obj (doc_tasks d); next_id := PInt (doc_next_id d);
     file := fs; stdout := [] |}.

(** An invocation that returns normally with the given locals, file and output. *)
Definition returns (d : Document) (fs : disk) (out : list line) : Run :=
  {| locals := Some (doc_locals d); disk_after := fs; printed := out; raised := None |}.

(** Every invocation on a stored document returns normally, and changes
    the document in one of three ways. *)
Inductive step_doc (d : Document) : Document -> Prop :=
| step_same : step_doc d d
| step_added s e : s <> EmptyString -> 0 <= e -> step_doc d (added d s e)
| step_edited k t t' :
    doc_tasks d !! k = Some t ->
    task_id t' = task_id t ->
    step_doc d (with_tasks d (<[k := t']> (doc_tasks d))).

(** The invariant of the design: [next_id] lies above every id in use. *)
Definition ids_below_next (d : Document) : Prop :=
  Forall (fun t => task_id t < doc_next_id d) (doc_tasks d).

(** The file systems reached from an empty store by the four commands. *)
Inductive reachable : disk -> Prop :=
| reachable_empty fs : holds fs empty_document -> reachable fs
| reachable_step args fs :
    reachable fs ->
    arg_command args ∈ ["add"; "list"; "view"; "edit"] ->
    reachable (disk_after (main args fs)).

(** ** Further notions for the command handler *)

(** The file [save_tasks] leaves for the locals [t] and [n]. *)
Definition saved (t n : pyval) : disk :=
  Some (Json (PDict [("tasks", t); ("next_id", n)])).

(** A computation that leaves the locals and the file as they are. *)
Definition read_only {A} (m : Py A) : Prop :=
  forall s, tasks (m s).1 = tasks s /\ next_id (m s).1 = next_id s /\ file (m s).1 = file s.

(** A computation that either leaves the file as it is, or returns
    normally with the file holding its final locals. *)
Definition writes_locals (m : Py unit) : Prop :=
  forall s,
    file (m s).1 = file s \/
    ((m s).2 = inr tt /\ file (m s).1 = saved (tasks (m s).1) (next_id (m s).1)).

(** The task [edit] leaves in place of [t] when it succeeds. *)
Definition edited (desc : option string) (est : option Z) (t : Task) : Task :=
  match est with
  | Some e => with_estimate (apply_description desc t) e
  | None => apply_description desc t
  end.

(** The whole data model of a task and of a document. *)
Definition well_formed_task (t : Task) : Prop :=
  0 < task_id t /\ task_description t <> EmptyString /\ 0 <= task_estimate t.

Definition data_model (d : Document) : Prop :=
  0 < doc_next_id d /\
  Forall (fun t => well_formed_task t /\ task_id t < doc_next_id d) (doc_tasks d) /\
  NoDup (task_id <$> doc_tasks d).

(** Successive invocations, each starting from the file the last one left. *)
Definition run_all (cmds : list Namespace) (fs : disk) : disk :=
  foldl (fun fs' args => disk_after (main args fs')) fs cmds.

Definition add_args (p : string * Z) : Namespace :=
  cli "add" (Some p.1) (Some p.2) None.

(** The tasks a run of [add]s builds from the given descriptions and
    estimates, numbered from [first]. *)
Definition numbered (first : Z) (inputs : list (string * Z)) : list Task :=
  imap (fun k p => {| task_id := first + Z.of_nat k;
                      task_description := p.1;
                      task_estimate := p.2 |}) inputs.

(** ** [idempotent_function.py] *)

(** A [Resource] is an object with one attribute, [value].  The
    functions of the module return and mutate such objects and the
    tests compare them with [is], so the objects live in a heap and are
    named by their position in it.  The values are integers, as in the
    tests. *)
Abbreviation heap := (list Z).
Abbreviation ref := nat.

(** [Resource(value)]: a new object, distinct from every existing one. *)
Definition Resource (h : heap) (value : Z) : heap * ref :=
  ((h ++ [value])%list, length h).

(** [a == b] on two resources, by [__eq__]; [None] stands for a name
    that refers to no object, which Python never produces. *)
Definition Resource_eq (h : heap) (a b : ref) : option bool :=
  match h !! a, h !! b with
  | Some v, Some w => Some (v =? w)
  | _, _ => None
  end.

(** [a != b]: without [__ne__] in the class, the negation of [__eq__]. *)
Definition Resource_ne (h : heap) (a b : ref) : option bool :=
  negb <$> Resource_eq h a b.

Definition create_resource (h : heap) (initial_value : Z) : heap * ref :=
  Resource h initial_value.

(** [current_resource] is [None] or a resource; a resource is true. *)
Definition ensure_resource_exists (h : heap) (initial_value : Z)
    (current_resource : option ref) : option (heap * ref) :=
  match current_resource with
  | Some r =>
      match h !! r with
      | Some v =>
          if v =? initial_value then Some (h, r)
          else Some (Resource h initial_value)
      | None => None
      end
  | None => Some (Resource h initial_value)
  end.

Definition increment_resource_value (h : heap) (resource : ref) : option (heap * ref) :=
  match h !! resource with
  | Some v => Some (<[resource := v + 1]> h, resource)
  | None => None
  end.

Definition set_resource_value (h : heap) (resource : ref) (new_value : Z)
  : option (heap * ref) :=
  match h !! resource with
  | Some _ => Some (<[resource := new_value]> h, resource)
  | None => None
  end.

(** ** Basic facts *)

Lemma holds_stored d : holds (stored d) d.
Proof. reflexivity. Qed.

Lemma holds_no_file : holds None empty_document.
Proof. reflexivity. Qed.

Lemma find_task_tasks ts i :
  find_task (task_obj <$> ts) i = inr (index_of ts i).
Proof.
  induction ts as [|t ts IH]; [done|].
  rewrite fmap_cons.
  change (find_task (task_obj t :: (task_obj <$> ts)) i)
    with (if task_id t =? i then inr (Some 0%nat)
          else match find_task (task_obj <$> ts) i with
               | inr (Some k) => inr (Some (S k))
               | r => r
               end).
  rewrite IH. simpl. destruct (task_id t =? i); [done|].
  by destruct (index_of ts i).
Qed.

Lemma index_of_Some ts i k :
  index_of ts i = Some k ->
  exists t, ts !! k = Some t /\ task_id t = i /\
            forall j u, (j < k)%nat -> ts !! j = Some u -> task_id u <> i.
Proof.
  revert k. induction ts as [|t ts IH]; intros k; simpl; [done|].
  destruct (Z.eqb_spec (task_id t) i) as [E|E].
  - intros [= <-]. exists t. split_and!; [done|done|]. intros; lia.
  - destruct (index_of ts i) as [k'|] eqn:Ek; simpl; [|done].
    intros [= <-]. destruct (IH k' eq_refl) as (u & Hu & Hi & Hfirst).
    exists u. split_and!; [done|done|].
    intros [|j] v Hj Hv; simpl in Hv.
    + by injection Hv as <-.
    + apply (Hfirst j v); [lia|done].
Qed.

Lemma index_of_None ts i :
  index_of ts i = None <-> Forall (fun t => task_id t <> i) ts.
Proof.
  induction ts as [|t ts IH]; simpl.
  - split; [constructor|done].
  - destruct (Z.eqb_spec (task_id t) i) as [E|E].
    + split; [done|]. intros H. by inversion H.
    + destruct (index_of ts i); simpl.
      * split; [done|]. intros H. inversion H; subst.
        by apply IH in H3.
      * split; [|done]. intros _. constructor; [done|]. by apply IH.
Qed.

Lemma index_of_elem ts i t :
  t ∈ ts -> task_id t = i -> exists k, index_of ts i = Some k.
Proof.
  intros Hin Hid. destruct (index_of ts i) as [k|] eqn:E; [by exists k|].
  apply index_of_None in E. rewrite Forall_forall in E.
  by destruct (E t Hin).
Qed.

(** ** What [main] does on a stored document *)

Lemma main_holds args fs d :
  holds fs d -> main args fs = finish (dispatch args (start fs d)).
Proof.
  unfold main, holds. intros ->. unfold doc_locals, start.
  by destruct (dispatch _ _) as [s r].
Qed.

Lemma main_add_ok fs d c s est i :
  holds fs d ->
  match est with Some e => 0 <= e | None => True end ->
  main (cli "add" (Some (String c s)) est i) fs
  = returns (added d (String c s) (default 0 est))
            (stored (added d (String c s) (default 0 est)))
            [added_line (new_task d (String c s) (default 0 est))].
Proof.
  intros H He. rewrite (main_holds _ _ _ H).
  unfold dispatch, cmd_add, start, returns, doc_locals, stored, added; simpl.
  destruct est as [e|]; simpl.
  - destruct (Z.ltb_spec e 0); [lia|].
    unfold finish, bind, tasks_obj; simpl. by rewrite fmap_app.
  - unfold finish, bind, tasks_obj; simpl. by rewrite fmap_app.
Qed.

Lemma main_add_some fs d desc est i :
  holds fs d ->
  desc <> EmptyString ->
  0 <= est ->
  main (cli "add" (Some desc) (Some est) i) fs
  = returns (added d desc est) (stored (added d desc est))
            [added_line (new_task d desc est)].
Proof.
  intros H Hd He. destruct desc as [|c s]; [done|].
  by apply (main_add_ok fs d c s (Some est) i).
Qed.

Lemma main_add_no_description fs d desc est i :
  holds fs d ->
  desc = None \/ desc = Some EmptyString ->
  main (cli "add" desc est i) fs = returns d fs [description_required].
Proof.
  intros H Hd. rewrite (main_holds _ _ _ H).
  by destruct Hd as [-> | ->].
Qed.

Lemma main_add_negative fs d c s e i :
  holds fs d ->
  e < 0 ->
  main (cli "add" (Some (String c s)) (Some e) i) fs = returns d fs [estimate_negative].
Proof.
  intros H He. rewrite (main_holds _ _ _ H).
  unfold dispatch, cmd_add; simpl.
  by destruct (Z.ltb_spec e 0); [|lia].
Qed.

Lemma print_tasks_tasks ts s :
  print_tasks (task_obj <$> ts) s
  = ({| tasks := tasks s; next_id := next_id s; file := file s;
        stdout := stdout s ++ (list_line <$> ts) |}, inr tt).
Proof.
  revert s. induction ts as [|t ts IH]; intros s.
  - destruct s; simpl. by rewrite app_nil_r.
  - rewrite !fmap_cons.
    change (print_tasks (task_obj t :: (task_obj <$> ts)) s)
      with (print_tasks (task_obj <$> ts)
              {| tasks := tasks s; next_id := next_id s; file := file s;
                 stdout := stdout s ++ [list_line t] |}).
    rewrite IH. simpl. by rewrite <- app_assoc.
Qed.

Lemma main_list fs d desc est i :
  holds fs d ->
  main (cli "list" desc est i) fs
  = returns d fs (match doc_tasks d with
                  | [] => [[Lit "No tasks found."]]
                  | _ :: _ => [Lit "Tasks:"] :: (list_line <$> doc_tasks d)
                  end).
Proof.
  intros H. rewrite (main_holds _ _ _ H).
  destruct d as [[|t ts] n]; [done|].
  unfold dispatch, cmd_list, start, bind, get_tasks, lift; simpl.
  change (list_fmap Task pyval task_obj ts) with (task_obj <$> ts).
  unfold bind, lift, print at 1; simpl.
  by rewrite print_tasks_tasks.
Qed.

Lemma main_unknown fs d c desc est i :
  holds fs d ->
  c ∉ ["add"; "list"; "view"; "edit"] ->
  main (cli c desc est i) fs
  = returns d fs [[Lit "Unknown command: "; Fmt (PStr c)]].
Proof.
  intros H Hc. rewrite (main_holds _ _ _ H).
  unfold dispatch; simpl.
  destruct (String.eqb_spec c "add") as [->|_]; [destruct Hc; rewrite !elem_of_cons; auto|].
  destruct (String.eqb_spec c "list") as [->|_]; [destruct Hc; rewrite !elem_of_cons; auto|].
  destruct (String.eqb_spec c "view") as [->|_]; [destruct Hc; rewrite !elem_of_cons; auto|].
  destruct (String.eqb_spec c "edit") as [->|_]; [destruct Hc; rewrite !elem_of_cons; auto|].
  done.
Qed.

Lemma bind_eq {A B} (m : Py A) (k : A -> Py B) s s' a :
  m s = (s', inr a) -> bind m k s = k a s'.
Proof. unfold bind. by intros ->. Qed.

Lemma found_task_tasks ts k t n fs out :
  ts !! k = Some t ->
  found_task k {| tasks := tasks_obj ts; next_id := n; file := fs; stdout := out |}
  = ({| tasks := tasks_obj ts; next_id := n; file := fs; stdout := out |},
     inr (task_obj t)).
Proof.
  intros Hk. unfold found_task, tasks_obj; simpl.
  by rewrite list_lookup_fmap, Hk.
Qed.

Lemma set_description_tasks ts k t s n fs out :
  ts !! k = Some t ->
  found_task_set k "description" (PStr s)
    {| tasks := tasks_obj ts; next_id := n; file := fs; stdout := out |}
  = ({| tasks := tasks_obj (<[k := with_description t s]> ts);
        next_id := n; file := fs; stdout := out |}, inr tt).
Proof.
  intros Hk. unfold found_task_set, tasks_obj; simpl.
  rewrite list_lookup_fmap, Hk; simpl.
  by rewrite list_fmap_insert.
Qed.

Lemma set_estimate_tasks ts k t e n fs out :
  ts !! k = Some t ->
  found_task_set k "estimate" (PInt e)
    {| tasks := tasks_obj ts; next_id := n; file := fs; stdout := out |}
  = ({| tasks := tasks_obj (<[k := with_estimate t e]> ts);
        next_id := n; file := fs; stdout := out |}, inr tt).
Proof.
  intros Hk. unfold found_task_set, tasks_obj; simpl.
  rewrite list_lookup_fmap, Hk; simpl.
  by rewrite list_fmap_insert.
Qed.

Lemma main_view_no_id fs d desc est i :
  holds fs d ->
  i = None \/ i = Some 0 ->
  main (cli "view" desc est i) fs = returns d fs [id_required "view"].
Proof.
  intros H Hi. rewrite (main_holds _ _ _ H).
  by destruct Hi as [-> | ->].
Qed.

Lemma main_view_missing fs d desc est i :
  holds fs d ->
  i <> 0 ->
  index_of (doc_tasks d) i = None ->
  main (cli "view" desc est (Some i)) fs = returns d fs [not_found i].
Proof.
  intros H Hi Hx. rewrite (main_holds _ _ _ H).
  unfold dispatch, cmd_view, start; simpl.
  destruct i as [|p|p]; [done| |];
    cbn [bind get_tasks lift iterate tasks_obj tasks];
    rewrite find_task_tasks, Hx; done.
Qed.

Lemma main_view_found fs d desc est i k t :
  holds fs d ->
  i <> 0 ->
  index_of (doc_tasks d) i = Some k ->
  doc_tasks d !! k = Some t ->
  main (cli "view" desc est (Some i)) fs = returns d fs (view_lines t).
Proof.
  intros H Hi Hx Hk. rewrite (main_holds _ _ _ H).
  unfold dispatch, cmd_view, start; simpl.
  destruct i as [|p|p]; [done| |];
    cbn [bind get_tasks lift iterate tasks_obj tasks];
    rewrite find_task_tasks, Hx; cbn [bind];
    fold (tasks_obj (doc_tasks d));
    rewrite (bind_eq _ _ _ _ _ (found_task_tasks _ _ _ _ _ _ Hk)); done.
Qed.

Lemma main_edit_no_id fs d desc est i :
  holds fs d ->
  i = None \/ i = Some 0 ->
  main (cli "edit" desc est i) fs = returns d fs [id_required "edit"].
Proof.
  intros H Hi. rewrite (main_holds _ _ _ H).
  by destruct Hi as [-> | ->].
Qed.

Lemma main_edit_missing fs d desc est i :
  holds fs d ->
  i <> 0 ->
  index_of (doc_tasks d) i = None ->
  main (cli "edit" desc est (Some i)) fs = returns d fs [not_found i].
Proof.
  intros H Hi Hx. rewrite (main_holds _ _ _ H).
  unfold dispatch, cmd_edit, start; simpl.
  destruct i as [|p|p]; [done| |];
    cbn [bind get_tasks lift iterate tasks_obj tasks];
    rewrite find_task_tasks, Hx; done.
Qed.

Lemma edit_description_step desc ts k t n fs out :
  ts !! k = Some t ->
  match desc with
  | None | Some EmptyString => ret tt
  | Some description => found_task_set k "description" (PStr description)
  end {| tasks := tasks_obj ts; next_id := n; file := fs; stdout := out |}
  = ({| tasks := tasks_obj (<[k := apply_description desc t]> ts);
        next_id := n; file := fs; stdout := out |}, inr tt).
Proof.
  intros Hk. destruct desc as [[|c s]|]; simpl.
  - unfold ret. by rewrite list_insert_id.
  - by apply set_description_tasks.
  - unfold ret. by rewrite list_insert_id.
Qed.

Lemma edit_finish ts k t n fs out :
  ts !! k = Some t ->
  (run save_tasks;
   do task' <- found_task k;
   do a <- lift (getitem task' "id");
   print [Lit "Task "; Fmt a; Lit " updated."])
    {| tasks := tasks_obj ts; next_id := n; file := fs; stdout := out |}
  = ({| tasks := tasks_obj ts; next_id := n;
        file := Some (Json (PDict [("tasks", tasks_obj ts); ("next_id", n)]));
        stdout := out ++ [updated_line (task_id t)] |}, inr tt).
Proof.
  intros Hk. unfold bind at 1, save_tasks. cbn [tasks next_id file stdout].
  by rewrite (bind_eq _ _ _ _ _ (found_task_tasks _ _ _ _ _ _ Hk)).
Qed.

Lemma main_edit_found fs d desc est i k t :
  holds fs d ->
  i <> 0 ->
  index_of (doc_tasks d) i = Some k ->
  doc_tasks d !! k = Some t ->
  main (cli "edit" desc est (Some i)) fs
  = let t1 := apply_description desc t in
    match est with
    | Some e =>
        if e <? 0 then
          returns (with_tasks d (<[k := t1]> (doc_tasks d))) fs [estimate_negative]
        else
          let d' := with_tasks d (<[k := with_estimate t1 e]> (doc_tasks d)) in
          returns d' (stored d') [updated_line (task_id t)]
    | None =>
        let d' := with_tasks d (<[k := t1]> (doc_tasks d)) in
        returns d' (stored d') [updated_line (task_id t)]
    end.
Proof.
  intros H Hi Hx Hk. rewrite (main_holds _ _ _ H).
  assert (Hlen : (k < length (doc_tasks d))%nat) by by eapply lookup_lt_Some.
  assert (Hid : task_id (apply_description desc t) = task_id t)
    by by destruct desc as [[|c s]|].
  pose proof (list_lookup_insert_eq _ _ (apply_description desc t) Hlen) as Hk1.
  unfold dispatch, cmd_edit, start; simpl.
  destruct i as [|p|p]; [done| |];
    cbn [bind get_tasks lift iterate tasks_obj tasks];
    rewrite find_task_tasks, Hx; cbn [bind];
    fold (tasks_obj (doc_tasks d));
    rewrite (bind_eq _ _ _ _ _ (found_task_tasks _ _ _ _ _ _ Hk));
    cbn [truthy task_obj];
    rewrite (bind_eq _ _ _ _ _ (edit_description_step desc _ _ _ _ _ _ Hk));
    (destruct est as [e|]; [destruct (e <? 0); [done|] |]).
  1,3: rewrite (bind_eq _ _ _ _ _ (set_estimate_tasks _ _ _ e _ _ _ Hk1)),
         list_insert_insert_eq;
       pose proof (list_lookup_insert_eq _ _
                     (with_estimate (apply_description desc t) e) Hlen) as Hk2;
       rewrite (edit_finish _ _ _ _ _ _ Hk2); simpl; by rewrite Hid.
  all: rewrite (edit_finish _ _ _ _ _ _ Hk1); simpl; by rewrite Hid.
Qed.

Lemma index_of_found ts i t :
  t ∈ ts -> task_id t = i ->
  exists k t0, index_of ts i = Some k /\ ts !! k = Some t0 /\ task_id t0 = i /\
               forall j u, (j < k)%nat -> ts !! j = Some u -> task_id u <> i.
Proof.
  intros Hin Hid. destruct (index_of_elem ts i t Hin Hid) as [k Hk].
  destruct (index_of_Some ts i k Hk) as (t0 & ? & ? & ?). by exists k, t0.
Qed.

Lemma index_of_snoc ts t :
  Forall (fun u => task_id u <> task_id t) ts ->
  index_of (ts ++ [t]) (task_id t) = Some (length ts).
Proof.
  induction 1 as [|u ts Hu _ IH]; simpl.
  - by rewrite Z.eqb_refl.
  - destruct (Z.eqb_spec (task_id u) (task_id t)); [done|]. by rewrite IH.
Qed.

Lemma with_tasks_same d k t :
  doc_tasks d !! k = Some t -> with_tasks d (<[k := t]> (doc_tasks d)) = d.
Proof. intros Hk. unfold with_tasks. rewrite list_insert_id by done. by destruct d. Qed.

(** ** The effect of one invocation on a document *)

Lemma main_step args fs d :
  holds fs d ->
  exists d' out,
    step_doc d d' /\
    (main args fs = returns d' fs out \/ main args fs = returns d' (stored d') out).
Proof.
  intros H. destruct args as [c desc est i].
  change (Build_Namespace c desc est i) with (cli c desc est i).
  destruct (decide (c ∈ ["add"; "list"; "view"; "edit"])) as [Hc|Hc].
  2: { exists d, [[Lit "Unknown command: "; Fmt (PStr c)]].
       split; [constructor|]. left. by apply main_unknown. }
  rewrite !elem_of_cons in Hc.
  destruct Hc as [-> | [-> | [-> | [-> | Hc]]]]; [| | | |by inversion Hc].
  - (* add *)
    destruct desc as [[|a s]|].
    + exists d, [description_required]. split; [constructor|]. left.
      apply main_add_no_description; auto.
    + destruct est as [e|]; [destruct (Z.lt_ge_cases e 0)|].
      * exists d, [estimate_negative]. split; [constructor|]. left.
        by apply main_add_negative.
      * eexists (added d (String a s) e), _. split; [by constructor|]. right.
        by apply (main_add_ok fs d a s (Some e)).
      * eexists (added d (String a s) 0), _. split; [by constructor|]. right.
        by apply (main_add_ok fs d a s None).
    + exists d, [description_required]. split; [constructor|]. left.
      apply main_add_no_description; auto.
  - (* list *)
    eexists d, _. split; [constructor|]. left. by apply main_list.
  - (* view *)
    destruct i as [i|].
    2: { eexists d, _. split; [constructor|]. left. apply main_view_no_id; auto. }
    destruct (decide (i = 0)) as [->|Hi].
    { eexists d, _. split; [constructor|]. left. apply main_view_no_id; auto. }
    destruct (index_of (doc_tasks d) i) as [k|] eqn:Hx.
    + destruct (index_of_Some _ _ _ Hx) as (t & Hk & _).
      eexists d, _. split; [constructor|]. left. by eapply main_view_found.
    + eexists d, _. split; [constructor|]. left. by apply main_view_missing.
  - (* edit *)
    destruct i as [i|].
    2: { eexists d, _. split; [constructor|]. left. apply main_edit_no_id; auto. }
    destruct (decide (i = 0)) as [->|Hi].
    { eexists d, _. split; [constructor|]. left. apply main_edit_no_id; auto. }
    destruct (index_of (doc_tasks d) i) as [k|] eqn:Hx.
    2: { eexists d, _. split; [constructor|]. left. by apply main_edit_missing. }
    destruct (index_of_Some _ _ _ Hx) as (t & Hk & _).
    assert (Hid : task_id (apply_description desc t) = task_id t)
      by by destruct desc as [[|a s]|].
    rewrite (main_edit_found fs d desc est i k t H Hi Hx Hk). cbv zeta.
    destruct est as [e|]; [destruct (e <? 0)|].
    + eexists _, _. split; [|by left]. by econstructor.
    + eexists _, _. split; [|by right]. by econstructor.
    + eexists _, _. split; [|by right]. by econstructor.
Qed.

Lemma step_ids_below_next d d' :
  step_doc d d' -> ids_below_next d -> ids_below_next d'.
Proof.
  unfold ids_below_next. intros [ | s e _ _ | k t t' Hk Hid] Hinv; simpl.
  - done.
  - apply Forall_app. split.
    + eapply Forall_impl; [done|]. simpl. intros; lia.
    + repeat constructor. simpl. lia.
  - apply Forall_insert; [done|]. rewrite Hid.
    by apply (Forall_lookup_1 _ _ _ _ Hinv Hk).
Qed.

Lemma step_valid d d' :
  step_doc d d' -> valid_document d -> valid_document d'.
Proof.
  unfold valid_document. intros [ | s e _ _ | k t t' Hk Hid] [Hn Hinv]; simpl.
  - done.
  - split; [lia|]. apply Forall_app. split.
    + eapply Forall_impl; [done|]. simpl. intros; lia.
    + repeat constructor; simpl; lia.
  - split; [done|]. apply Forall_insert; [done|]. rewrite Hid.
    by apply (Forall_lookup_1 _ _ _ _ Hinv Hk).
Qed.

Lemma main_preserves (P : Document -> Prop) args fs d :
  (forall d', step_doc d d' -> P d') ->
  holds fs d ->
  exists d', holds (disk_after (main args fs)) d' /\ P d'.
Proof.
  intros HP H. destruct (main_step args fs d H) as (d' & out & Hs & [-> | ->]).
  - exists d. split; [done|]. apply HP. constructor.
  - exists d'. split; [apply holds_stored|]. by apply HP.
Qed.

Lemma reachable_valid fs :
  reachable fs -> exists d, holds fs d /\ valid_document d.
Proof.
  induction 1 as [fs H | args fs _ (d & H & Hv) _].
  - exists empty_document. split; [done|]. split; [done|constructor].
  - apply (main_preserves valid_document args fs d); [|done].
    intros d' Hs. by apply (step_valid d).
Qed.

Lemma valid_positive_ids d : valid_document d -> positive_ids d.
Proof.
  intros [_ Hv]. unfold positive_ids.
  eapply Forall_impl; [done|]. simpl. intros; lia.
Qed.

(** ** The scenarios of the design *)

Example scenario_add :
  main (cli "add" (Some "write spec") (Some 3) None) None
  = returns {| doc_tasks := [ {| task_id := 1; task_description := "write spec";
                                 task_estimate := 3 |} ];
               doc_next_id := 2 |}
            (stored {| doc_tasks := [ {| task_id := 1; task_description := "write spec";
                                         task_estimate := 3 |} ];
                       doc_next_id := 2 |})
            [added_line {| task_id := 1; task_description := "write spec";
                           task_estimate := 3 |}].
Proof. reflexivity. Qed.

Example scenario_edit :
  let d := {| doc_tasks := [ {| task_id := 1; task_description := "write spec";
                                task_estimate := 3 |} ];
              doc_next_id := 2 |} in
  let d' := {| doc_tasks := [ {| task_id := 1; task_description := "write spec";
                                 task_estimate := 5 |} ];
               doc_next_id := 2 |} in
  main (cli "edit" None (Some 5) (Some 1)) (stored d)
  = returns d' (stored d') [updated_line 1].
Proof. reflexivity. Qed.

(** A task list that is not a list of task objects makes [list] raise
    after its header line. *)
Example list_on_malformed_tasks :
  main (cli "list" None None None)
       (Some (Json (PDict [("tasks", PDict [("a", PNone)])])))
  = {| locals := Some (PDict [("a", PNone)], PInt 1);
       disk_after := Some (Json (PDict [("tasks", PDict [("a", PNone)])]));
       printed := [[Lit "Tasks:"]];
       raised := Some TypeError |}.
Proof. reflexivity. Qed.

(** ** The properties of the design *)

(** C1. For a non-empty description and a non-negative estimate, [add]
    on a document builds the task whose id is the document's prior
    [next_id] and whose description and estimate are the inputs; the
    task is appended to the task sequence, [next_id] grows by one, and
    the updated document is written to the file. *)
Theorem add_yields_task fs d desc est i :
  holds fs d ->
  desc <> EmptyString ->
  0 <= est ->
  let t := {| task_id := doc_next_id d; task_description := desc; task_estimate := est |} in
  let d' := {| doc_tasks := doc_tasks d ++ [t]; doc_next_id := doc_next_id d + 1 |} in
  main (cli "add" (Some desc) (Some est) i) fs
  = {| locals := Some (doc_locals d');
       disk_after := stored d';
       printed := [added_line t];
       raised := None |}.
Proof.
  intros H Hd He. by apply main_add_some.
Qed.

Lemma add_yields_task_witness :
  holds None empty_document /\ "write spec" <> EmptyString /\ 0 <= 3 /\
  main (cli "add" (Some "write spec") (Some 3) None) None
  = {| locals := Some (doc_locals {| doc_tasks := [ {| task_id := 1;
                                                       task_description := "write spec";
                                                       task_estimate := 3 |} ];
                                     doc_next_id := 2 |});
       disk_after := stored {| doc_tasks := [ {| task_id := 1;
                                                 task_description := "write spec";
                                                 task_estimate := 3 |} ];
                               doc_next_id := 2 |};
       printed := [added_line {| task_id := 1; task_description := "write spec";
                                 task_estimate := 3 |}];
       raised := None |}.
Proof.
  split; [reflexivity|]. split; [discriminate|]. split; [lia|].
  apply (add_yields_task None empty_document "write spec" 3 None);
    [reflexivity | discriminate | lia].
Defined.

(** C2. [add] with a missing or empty description, or with a negative
    estimate, reports a validation error and leaves the document as it
    was: no task appended, [next_id] unchanged, the file not written. *)
Theorem add_invalid_rejected fs d desc est i :
  holds fs d ->
  desc = None \/ desc = Some EmptyString \/ (exists e, est = Some e /\ e < 0) ->
  let r := main (cli "add" desc est i) fs in
  ValidationError (printed r) /\
  locals r = Some (doc_locals d) /\
  disk_after r = fs /\
  raised r = None.
Proof.
  intros H Hbad r. subst r.
  destruct desc as [[|c s]|].
  - rewrite (main_add_no_description fs d (Some EmptyString) est i H) by auto.
    split; [by left|done].
  - destruct Hbad as [?|[?|(e & -> & He)]]; [done|done|].
    rewrite (main_add_negative fs d c s e i H He).
    split; [by right|done].
  - rewrite (main_add_no_description fs d None est i H) by auto.
    split; [by left|done].
Qed.

Lemma add_invalid_rejected_witness :
  let d := {| doc_tasks := [ {| task_id := 1; task_description := "write spec";
                                task_estimate := 3 |} ]; doc_next_id := 2 |} in
  let r := main (cli "add" (Some "review") (Some (-2)) None) (stored d) in
  ValidationError (printed r) /\
  locals r = Some (doc_locals d) /\
  disk_after r = stored d /\
  raised r = None.
Proof.
  intros d.
  apply (add_invalid_rejected (stored d) d (Some "review") (Some (-2)) None).
  - reflexivity.
  - right. right. exists (-2). split; [reflexivity|lia].
Defined.

(** C3, as stated, fails at id 0: no task of the empty document carries
    it, yet neither [view] nor [edit] reports that the task was not
    found; both report that the id is required. *)
Lemma id_zero_not_reported_missing :
  holds None empty_document /\
  Forall (fun t => task_id t <> 0) (doc_tasks empty_document) /\
  ~ NotFoundError 0 (printed (main (cli "view" None None (Some 0)) None)) /\
  ~ NotFoundError 0 (printed (main (cli "edit" None None (Some 0)) None)).
Proof.
  split; [reflexivity|]. split; [constructor|].
  split; intros [=].
Qed.

(** C3, amended. For an id other than 0 that no task of the document
    carries, [view] reports that the task was not found, and [edit]
    reports the same and leaves the document as it was: no field
    changed, the file not written. *)
Theorem unknown_id_not_found fs d i desc est :
  holds fs d ->
  i <> 0 ->
  Forall (fun t => task_id t <> i) (doc_tasks d) ->
  let rv := main (cli "view" desc est (Some i)) fs in
  let re := main (cli "edit" desc est (Some i)) fs in
  (NotFoundError i (printed rv) /\ raised rv = None) /\
  (NotFoundError i (printed re) /\
   locals re = Some (doc_locals d) /\
   disk_after re = fs /\
   raised re = None).
Proof.
  intros H Hi Hno rv re. subst rv re.
  apply index_of_None in Hno.
  rewrite (main_view_missing fs d desc est i H Hi Hno).
  by rewrite (main_edit_missing fs d desc est i H Hi Hno).
Qed.

Lemma unknown_id_not_found_witness :
  let d := {| doc_tasks := [ {| task_id := 1; task_description := "write spec";
                                task_estimate := 3 |} ]; doc_next_id := 2 |} in
  let rv := main (cli "view" (Some "other") (Some 4) (Some 7)) (stored d) in
  let re := main (cli "edit" (Some "other") (Some 4) (Some 7)) (stored d) in
  (NotFoundError 7 (printed rv) /\ raised rv = None) /\
  (NotFoundError 7 (printed re) /\
   locals re = Some (doc_locals d) /\
   disk_after re = stored d /\
   raised re = None).
Proof.
  intros d.
  apply (unknown_id_not_found (stored d) d 7 (Some "other") (Some 4));
    [reflexivity | lia | repeat constructor; simpl; lia].
Defined.

(** C4. On a document holding a task with the given id, [edit] with only
    a description leaves the estimate of that task as it was, and [edit]
    with only an estimate leaves its description as it was.  The edited
    document differs from the old one at the position of the first task
    carrying the id and nowhere else, so the id of the task, the other
    tasks and their order are unchanged.  For an id other than 0 the
    supplied field is the one that changes, and the document is written. *)
Theorem edit_keeps_unspecified_fields fs d i t :
  holds fs d ->
  t ∈ doc_tasks d ->
  task_id t = i ->
  (forall desc,
     let r := main (cli "edit" (Some desc) None (Some i)) fs in
     exists k t0 t',
       let d' := with_tasks d (<[k := t']> (doc_tasks d)) in
       doc_tasks d !! k = Some t0 /\ task_id t0 = i /\
       task_id t' = task_id t0 /\
       task_estimate t' = task_estimate t0 /\
       locals r = Some (doc_locals d') /\
       (disk_after r = fs \/ disk_after r = stored d') /\
       (i <> 0 -> disk_after r = stored d') /\
       (i <> 0 -> desc <> EmptyString -> task_description t' = desc)) /\
  (forall e,
     let r := main (cli "edit" None (Some e) (Some i)) fs in
     exists k t0 t',
       let d' := with_tasks d (<[k := t']> (doc_tasks d)) in
       doc_tasks d !! k = Some t0 /\ task_id t0 = i /\
       task_id t' = task_id t0 /\
       task_description t' = task_description t0 /\
       locals r = Some (doc_locals d') /\
       (disk_after r = fs \/ disk_after r = stored d') /\
       (i <> 0 -> 0 <= e -> disk_after r = stored d') /\
       (i <> 0 -> 0 <= e -> task_estimate t' = e)).
Proof.
  intros H Hin Hid.
  destruct (index_of_found _ _ _ Hin Hid) as (k & t0 & Hx & Hk & Hid0 & _).
  split.
  - intros desc r. subst r.
    destruct (decide (i = 0)) as [Hi|Hi].
    + exists k, t0, t0. cbv zeta. rewrite (with_tasks_same _ _ _ Hk).
      rewrite Hi, (main_edit_no_id fs d (Some desc) None (Some 0) H) by auto.
      split_and!; try done; auto; congruence.
    + exists k, t0, (apply_description (Some desc) t0). cbv zeta.
      rewrite (main_edit_found fs d (Some desc) None i k t0 H Hi Hx Hk).
      split_and!; try done; auto; by destruct desc.
  - intros e r. subst r.
    destruct (decide (i = 0)) as [Hi|Hi].
    + exists k, t0, t0. cbv zeta. rewrite (with_tasks_same _ _ _ Hk).
      rewrite Hi, (main_edit_no_id fs d None (Some e) (Some 0) H) by auto.
      split_and!; try done; auto; congruence.
    + rewrite (main_edit_found fs d None (Some e) i k t0 H Hi Hx Hk).
      cbv zeta. simpl apply_description.
      destruct (Z.ltb_spec e 0).
      * exists k, t0, t0. cbv zeta. split_and!; try done; auto; intros; lia.
      * exists k, t0, (with_estimate t0 e). cbv zeta. split_and!; try done; auto.
Qed.

Lemma edit_keeps_unspecified_fields_witness :
  let t := {| task_id := 1; task_description := "write spec"; task_estimate := 3 |} in
  let d := {| doc_tasks := [t]; doc_next_id := 2 |} in
  exists k t0 t',
    let d' := with_tasks d (<[k := t']> (doc_tasks d)) in
    let r := main (cli "edit" None (Some 5) (Some 1)) (stored d) in
    doc_tasks d !! k = Some t0 /\ task_id t0 = 1 /\
    task_id t' = task_id t0 /\
    task_description t' = task_description t0 /\
    locals r = Some (doc_locals d') /\
    (disk_after r = stored d \/ disk_after r = stored d') /\
    (1 <> 0 -> 0 <= 5 -> disk_after r = stored d') /\
    (1 <> 0 -> 0 <= 5 -> task_estimate t' = 5).
Proof.
  intros t d.
  assert (Ht : t ∈ doc_tasks d) by (apply list_elem_of_In; left; reflexivity).
  exact (proj2 (edit_keeps_unspecified_fields (stored d) d 1 t
                  eq_refl Ht eq_refl) 5).
Defined.

(** C5. [load_tasks] returns the empty document (no tasks, [next_id] 1)
    when the file does not exist, and fails when the file does not hold
    a JSON object: with the decoding error of [json.load] when the text
    is not JSON, with an attribute error when the JSON value is not an
    object.  For a file holding an object with the keys [tasks] and
    [next_id] it returns exactly the two stored values. *)
Theorem load_tasks_cases :
  load_tasks None = inr (doc_locals empty_document) /\
  load_tasks (Some Garbled) = inl JSONDecodeError /\
  (forall v,
     match v with
     | PDict _ => True
     | _ => load_tasks (Some (Json v)) = inl AttributeError
     end) /\
  (forall entries t n,
     dict_get entries "tasks" = Some t ->
     dict_get entries "next_id" = Some n ->
     load_tasks (Some (Json (PDict entries))) = inr (t, n)) /\
  (forall d, load_tasks (stored d) = inr (doc_locals d)).
Proof.
  split_and!; try done.
  - by intros [].
  - intros entries t n Ht Hn. simpl. by rewrite Ht, Hn.
Qed.

Lemma load_tasks_cases_witness :
  load_tasks (Some (Json (PDict [("next_id", PInt 4); ("tasks", PList [])])))
  = inr (PList [], PInt 4).
Proof.
  apply (proj1 (proj2 (proj2 (proj2 load_tasks_cases)))); reflexivity.
Defined.

(** C6. In every document reached from the empty document by [add],
    [list], [view] and [edit], [next_id] is strictly greater than the id
    of every task; and each invocation, whatever its command, carries a
    stored document with that property to a stored document with it. *)
Theorem next_id_above_every_id :
  (forall fs, reachable fs -> exists d, holds fs d /\ ids_below_next d) /\
  (forall args fs d,
     holds fs d -> ids_below_next d ->
     exists d', holds (disk_after (main args fs)) d' /\ ids_below_next d').
Proof.
  assert (Hstep : forall args fs d,
             holds fs d -> ids_below_next d ->
             exists d', holds (disk_after (main args fs)) d' /\ ids_below_next d').
  { intros args fs d H Hinv.
    apply (main_preserves ids_below_next args fs d); [|done].
    intros d' Hs. by apply (step_ids_below_next d). }
  split; [|done].
  induction 1 as [fs H | args fs _ (d & H & Hinv) _].
  - exists empty_document. split; [done|constructor].
  - by apply (Hstep args fs d).
Qed.

Lemma next_id_above_every_id_witness :
  exists d,
    holds (disk_after (main (cli "add" (Some "write spec") (Some 3) None) None)) d /\
    ids_below_next d.
Proof.
  apply (proj1 next_id_above_every_id).
  apply reachable_step.
  - apply reachable_empty. reflexivity.
  - apply list_elem_of_In. left. reflexivity.
Defined.

(** C7. On a document of the data model, [add] with a non-empty
    description and a non-negative estimate followed by [view] with the
    id of the task [add] reported shows that same task: same id, same
    description, same estimate. *)
Theorem add_then_view fs d desc est i desc' est' :
  holds fs d ->
  valid_document d ->
  desc <> EmptyString ->
  0 <= est ->
  let t := {| task_id := doc_next_id d; task_description := desc; task_estimate := est |} in
  let r := main (cli "add" (Some desc) (Some est) i) fs in
  let r' := main (cli "view" desc' est' (Some (task_id t))) (disk_after r) in
  printed r = [added_line t] /\
  printed r' = view_lines t /\
  raised r' = None.
Proof.
  intros H [Hn Hv] Hd He t r r'.
  set (d' := {| doc_tasks := doc_tasks d ++ [t]; doc_next_id := doc_next_id d + 1 |}).
  assert (Hr : r = returns d' (stored d') [added_line t])
    by by apply main_add_some.
  assert (Hr' : main (cli "view" desc' est' (Some (task_id t))) (stored d')
                = returns d' (stored d') (view_lines t)).
  { apply (main_view_found _ _ _ _ _ (length (doc_tasks d))).
    - apply holds_stored.
    - simpl. lia.
    - apply index_of_snoc. eapply Forall_impl; [done|]. simpl. intros; lia.
    - simpl. by rewrite lookup_app_r, Nat.sub_diag. }
  subst r'. rewrite Hr. simpl disk_after. by rewrite Hr'.
Qed.

Lemma add_then_view_witness :
  let t := {| task_id := 1; task_description := "write spec"; task_estimate := 3 |} in
  let r := main (cli "add" (Some "write spec") (Some 3) None) None in
  let r' := main (cli "view" None None (Some 1)) (disk_after r) in
  printed r = [added_line t] /\
  printed r' = view_lines t /\
  raised r' = None.
Proof.
  apply (add_then_view None empty_document "write spec" 3 None None None).
  - reflexivity.
  - split; [simpl; lia|constructor].
  - discriminate.
  - lia.
Defined.

(** C8. On a document whose ids are positive, as the data model has
    them, and which holds a task with the given id, [edit] with a non-empty description and a negative estimate
    reports the negative-estimate error and does not write the file; the
    description was assigned before the estimate was checked, so in the
    locals of [main] the first task carrying the id already has the new
    description when the error is reported. *)
Theorem edit_negative_estimate_after_description fs d i t desc e :
  holds fs d ->
  positive_ids d ->
  t ∈ doc_tasks d ->
  task_id t = i ->
  desc <> EmptyString ->
  e < 0 ->
  let r := main (cli "edit" (Some desc) (Some e) (Some i)) fs in
  exists k t0,
    doc_tasks d !! k = Some t0 /\ task_id t0 = i /\
    (forall j u, (j < k)%nat -> doc_tasks d !! j = Some u -> task_id u <> i) /\
    printed r = [estimate_negative] /\
    disk_after r = fs /\
    locals r = Some (doc_locals (with_tasks d (<[k := with_description t0 desc]> (doc_tasks d)))) /\
    raised r = None.
Proof.
  intros H Hv Hin Hid Hd He r. subst r.
  assert (Hi : i <> 0).
  { unfold positive_ids in Hv. rewrite Forall_forall in Hv.
    specialize (Hv t Hin). lia. }
  destruct (index_of_found _ _ _ Hin Hid) as (k & t0 & Hx & Hk & Hid0 & Hfirst).
  exists k, t0.
  rewrite (main_edit_found fs d (Some desc) (Some e) i k t0 H Hi Hx Hk). cbv zeta.
  destruct (Z.ltb_spec e 0); [|lia].
  by destruct desc.
Qed.

Lemma edit_negative_estimate_after_description_witness :
  let t := {| task_id := 1; task_description := "write spec"; task_estimate := 3 |} in
  let d := {| doc_tasks := [t]; doc_next_id := 2 |} in
  let r := main (cli "edit" (Some "draft") (Some (-5)) (Some 1)) (stored d) in
  exists k t0,
    doc_tasks d !! k = Some t0 /\ task_id t0 = 1 /\
    (forall j u, (j < k)%nat -> doc_tasks d !! j = Some u -> task_id u <> 1) /\
    printed r = [estimate_negative] /\
    disk_after r = stored d /\
    locals r = Some (doc_locals (with_tasks d (<[k := with_description t0 "draft"]> (doc_tasks d)))) /\
    raised r = None.
Proof.
  intros t d.
  apply (edit_negative_estimate_after_description (stored d) d 1 t "draft" (-5)).
  - reflexivity.
  - repeat constructor; simpl; lia.
  - apply list_elem_of_In. left. reflexivity.
  - reflexivity.
  - discriminate.
  - lia.
Defined.

(** C9. On every document, [view] and [edit] with id 0 report that the
    task id is required, as they do when no id is given: the id is
    tested for truth.  A negative id passes that test and is searched
    for; on a document whose ids are positive, as the data model has
    them, no task carries it, and the task is reported as not found. *)
Theorem id_zero_reported_as_missing_id fs d desc est :
  holds fs d ->
  main (cli "view" desc est (Some 0)) fs = returns d fs [id_required "view"] /\
  main (cli "edit" desc est (Some 0)) fs = returns d fs [id_required "edit"] /\
  (forall i,
     i < 0 ->
     positive_ids d ->
     main (cli "view" desc est (Some i)) fs = returns d fs [not_found i] /\
     main (cli "edit" desc est (Some i)) fs = returns d fs [not_found i]).
Proof.
  intros H. split_and!.
  - apply main_view_no_id; auto.
  - apply main_edit_no_id; auto.
  - intros i Hi Hv.
    assert (Hx : index_of (doc_tasks d) i = None).
    { apply index_of_None. eapply Forall_impl; [done|]. simpl. intros; lia. }
    split; [apply main_view_missing | apply main_edit_missing]; auto; lia.
Qed.

Lemma id_zero_reported_as_missing_id_witness :
  let t := {| task_id := 1; task_description := "write spec"; task_estimate := 3 |} in
  let d := {| doc_tasks := [t]; doc_next_id := 2 |} in
  main (cli "view" None None (Some 0)) (stored d) = returns d (stored d) [id_required "view"] /\
  main (cli "edit" None None (Some 0)) (stored d) = returns d (stored d) [id_required "edit"] /\
  (forall i,
     i < 0 ->
     positive_ids d ->
     main (cli "view" None None (Some i)) (stored d) = returns d (stored d) [not_found i] /\
     main (cli "edit" None None (Some i)) (stored d) = returns d (stored d) [not_found i]).
Proof.
  intros t d.
  apply (id_zero_reported_as_missing_id (stored d) d None None).
  reflexivity.
Defined.

(** C10. On a document whose ids are positive, as the data model has
    them, and which holds a task with the given id, [edit] with an empty description and no estimate treats the
    description as not supplied: no error is reported, the task keeps
    its description, and the unchanged document is written to the file
    with the message that the task was updated. *)
Theorem edit_empty_description_ignored fs d i t :
  holds fs d ->
  positive_ids d ->
  t ∈ doc_tasks d ->
  task_id t = i ->
  main (cli "edit" (Some EmptyString) None (Some i)) fs
  = {| locals := Some (doc_locals d);
       disk_after := stored d;
       printed := [updated_line i];
       raised := None |}.
Proof.
  intros H Hv Hin Hid.
  assert (Hi : i <> 0).
  { unfold positive_ids in Hv. rewrite Forall_forall in Hv.
    specialize (Hv t Hin). lia. }
  destruct (index_of_found _ _ _ Hin Hid) as (k & t0 & Hx & Hk & Hid0 & _).
  rewrite (main_edit_found fs d (Some EmptyString) None i k t0 H Hi Hx Hk). cbv zeta.
  simpl apply_description. rewrite (with_tasks_same _ _ _ Hk). by rewrite Hid0.
Qed.

Lemma edit_empty_description_ignored_witness :
  let t := {| task_id := 1; task_description := "write spec"; task_estimate := 3 |} in
  let d := {| doc_tasks := [t]; doc_next_id := 2 |} in
  main (cli "edit" (Some EmptyString) None (Some 1)) (stored d)
  = {| locals := Some (doc_locals d);
       disk_after := stored d;
       printed := [updated_line 1];
       raised := None |}.
Proof.
  intros t d.
  apply (edit_empty_description_ignored (stored d) d 1 t).
  - reflexivity.
  - repeat constructor; simpl; lia.
  - apply list_elem_of_In. left. reflexivity.
  - reflexivity.
Defined.

(** ** Commands on an arbitrary file *)

Lemma read_only_ret {A} (a : A) : read_only (ret a).
Proof. by intros s. Qed.

Lemma read_only_lift {A} (r : pyexn + A) : read_only (lift r).
Proof. by intros s. Qed.

Lemma read_only_print l : read_only (print l).
Proof. by intros s. Qed.

Lemma read_only_get_tasks : read_only get_tasks.
Proof. by intros s. Qed.

Lemma read_only_found_task k : read_only (found_task k).
Proof.
  intros [t n f o]. unfold found_task; simpl.
  destruct t as [| | | |items|]; try done.
  by destruct (items !! k).
Qed.

Lemma read_only_bind {A B} (m : Py A) (k : A -> Py B) :
  read_only m -> (forall a, read_only (k a)) -> read_only (bind m k).
Proof.
  intros Hm Hk s. unfold bind.
  specialize (Hm s). destruct (m s) as [s' [e|a]]; [done|].
  specialize (Hk a s'). simpl in Hm.
  destruct Hm as (E1 & E2 & E3), Hk as (F1 & F2 & F3).
  by rewrite F1, F2, F3.
Qed.

Lemma read_only_print_tasks items : read_only (print_tasks items).
Proof.
  induction items as [|task items IH]; [apply read_only_ret|].
  simpl. repeat (apply read_only_bind; [|intros ?]);
    auto using read_only_lift, read_only_print.
Qed.

Lemma read_only_cmd_list : read_only cmd_list.
Proof.
  unfold cmd_list. apply read_only_bind; [apply read_only_get_tasks|]. intros t.
  destruct (negb (truthy t)); [apply read_only_print|].
  repeat (apply read_only_bind; [|intros ?]);
    auto using read_only_lift, read_only_print, read_only_print_tasks.
Qed.

Lemma read_only_cmd_view args : read_only (cmd_view args).
Proof.
  unfold cmd_view. destruct (arg_id args) as [[|p|p]|];
    try apply read_only_print;
    (apply read_only_bind; [apply read_only_get_tasks|]; intros t;
     apply read_only_bind; [apply read_only_lift|]; intros items;
     apply read_only_bind; [apply read_only_lift|]; intros [k|];
     [|apply read_only_print];
     apply read_only_bind; [apply read_only_found_task|]; intros task;
     destruct (truthy task); [|apply read_only_print];
     repeat (apply read_only_bind; [|intros ?]);
     auto using read_only_lift, read_only_print).
Qed.

Lemma main_read_only (m : Py unit) args fs :
  dispatch args = m ->
  read_only m ->
  disk_after (main args fs) = fs /\
  locals (main args fs) = match load_tasks fs with
                          | inr p => Some p
                          | inl _ => None
                          end.
Proof.
  intros Hd Hm. subst m. unfold main.
  destruct (load_tasks fs) as [e|[t n]]; [done|].
  specialize (Hm {| tasks := t; next_id := n; file := fs; stdout := [] |}).
  destruct (dispatch args _) as [s r]; simpl in *.
  destruct Hm as (-> & -> & ->). done.
Qed.

Lemma find_task_Some items i k :
  find_task items i = inr (Some k) ->
  exists entries a,
    items !! k = Some (PDict entries) /\
    dict_get entries "id" = Some a /\
    eq_int a i = true.
Proof.
  revert k. induction items as [|task items IH]; intros k; simpl; [done|].
  destruct task as [| | | | |entries]; try done. simpl.
  destruct (dict_get entries "id") as [a|] eqn:Ha; [|done].
  destruct (eq_int a i) eqn:Heq.
  - intros [= <-]. by exists entries, a.
  - destruct (find_task items i) as [e|[k'|]]; try done.
    intros [= <-]. by apply IH.
Qed.

Lemma find_task_strings (f : string -> pyval) (l : list string) i :
  (forall x, exists s, f x = PStr s) ->
  forall k, find_task (f <$> l) i <> inr (Some k).
Proof.
  intros Hf k. destruct l as [|x l]; [done|].
  rewrite fmap_cons. destruct (Hf x) as [s Hs]. simpl. by rewrite Hs.
Qed.

(** A task found by the search loop lies in a list. *)
Lemma iterate_find_Some v items i k :
  iterate v = inr items ->
  find_task items i = inr (Some k) ->
  v = PList items.
Proof.
  destruct v as [| | |s|l|entries]; simpl; try done.
  - intros [= <-] Hf. exfalso.
    revert Hf. generalize (String.list_ascii_of_string s). intros [|c l]; [done|done].
  - by intros [= <-].
  - intros [= <-] Hf. exfalso.
    revert Hf. by destruct entries as [|[key x] rest].
Qed.

Lemma dict_get_set_ne entries key key' v :
  key <> key' -> dict_get (dict_set entries key' v) key = dict_get entries key.
Proof.
  intros Hne. induction entries as [|[k w] rest IH]; simpl.
  - destruct (String.eqb_spec key' key); [congruence|done].
  - destruct (String.eqb_spec k key'); simpl.
    + destruct (String.eqb_spec k key); [congruence|done].
    + by rewrite IH.
Qed.

Lemma dict_get_set_eq entries key v :
  dict_get (dict_set entries key v) key = Some v.
Proof.
  induction entries as [|[k w] rest IH]; simpl.
  - by rewrite String.eqb_refl.
  - destruct (String.eqb_spec k key) as [->|Hne]; simpl.
    + by rewrite String.eqb_refl.
    + destruct (String.eqb_spec k key); [done|]. apply IH.
Qed.

Lemma writes_locals_read_only (m : Py unit) : read_only m -> writes_locals m.
Proof. intros Hm s. left. apply Hm. Qed.

Lemma writes_locals_cmd_add args : writes_locals (cmd_add args).
Proof.
  intros [t n f o]. unfold cmd_add.
  destruct (arg_description args) as [[|c d]|]; [by left| |by left].
  assert (Hgo : forall e,
    let m := (do n0 <- get_next_id;
              let task := PDict [("id", n0); ("description", PStr (String c d));
                                 ("estimate", PInt e)] in
              do t0 <- get_tasks;
              do t' <- lift (append t0 task);
              run set_tasks t';
              do n' <- lift (plus_one n0);
              run set_next_id n';
              run save_tasks;
              do d0 <- lift (getitem task "description");
              do i <- lift (getitem task "id");
              do e0 <- lift (getitem task "estimate");
              run print [Lit "Task '"; Fmt d0; Lit "' added with ID "; Fmt i;
                         Lit " and estimate "; Fmt e0; Lit " hours."];
              save_tasks) in
    let s := {| tasks := t; next_id := n; file := f; stdout := o |} in
    file (m s).1 = file s \/
    ((m s).2 = inr tt /\ file (m s).1 = saved (tasks (m s).1) (next_id (m s).1))).
  { intros e. cbv zeta.
    destruct t as [| | | |items|]; try (by left);
      destruct n as [|b|z| | |]; try (by left); by right. }
  destruct (arg_estimate args) as [e|]; [|apply Hgo].
  destruct (e <? 0); [by left|apply Hgo].
Qed.

(** What [edit] does once the search loop has found a task, whatever
    the other entries of the list are. *)
Lemma cmd_edit_found c desc est i items k entries a n f o :
  i <> 0 ->
  find_task items i = inr (Some k) ->
  items !! k = Some (PDict entries) ->
  dict_get entries "id" = Some a ->
  cmd_edit {| arg_command := c; arg_description := desc; arg_estimate := est;
              arg_id := Some i |}
    {| tasks := PList items; next_id := n; file := f; stdout := o |}
  = let entries1 := match desc with
                    | None | Some EmptyString => entries
                    | Some d => dict_set entries "description" (PStr d)
                    end in
    match est with
    | Some e =>
        if e <? 0 then
          ({| tasks := PList (<[k := PDict entries1]> items); next_id := n;
              file := f; stdout := o ++ [estimate_negative] |}, inr tt)
        else
          let t' := PList (<[k := PDict (dict_set entries1 "estimate" (PInt e))]> items) in
          ({| tasks := t'; next_id := n; file := saved t' n;
              stdout := o ++ [[Lit "Task "; Fmt a; Lit " updated."]] |}, inr tt)
    | None =>
        let t' := PList (<[k := PDict entries1]> items) in
        ({| tasks := t'; next_id := n; file := saved t' n;
            stdout := o ++ [[Lit "Task "; Fmt a; Lit " updated."]] |}, inr tt)
    end.
Proof.
  intros Hi Hf Hk Ha.
  assert (Hlen : (k < length items)%nat) by by eapply lookup_lt_Some.
  assert (Hne : entries <> []) by (intros ->; done).
  set (entries1 := match desc with
                   | None | Some EmptyString => entries
                   | Some d => dict_set entries "description" (PStr d)
                   end).
  assert (Ha1 : dict_get entries1 "id" = Some a).
  { subst entries1. destruct desc as [[|c' d]|]; try done.
    by rewrite dict_get_set_ne. }
  assert (Hstep1 :
    match desc with
    | None | Some EmptyString => ret tt
    | Some description => found_task_set k "description" (PStr description)
    end {| tasks := PList items; next_id := n; file := f; stdout := o |}
    = ({| tasks := PList (<[k := PDict entries1]> items); next_id := n;
          file := f; stdout := o |}, inr tt)).
  { subst entries1. destruct desc as [[|c' d]|]; unfold ret, found_task_set; simpl;
      rewrite ?Hk; try done; by rewrite list_insert_id. }
  assert (Hfin : forall es t0,
    t0 = PList (<[k := PDict es]> items) ->
    dict_get es "id" = Some a ->
    (run save_tasks;
     do task' <- found_task k;
     do a0 <- lift (getitem task' "id");
     print [Lit "Task "; Fmt a0; Lit " updated."])
      {| tasks := t0; next_id := n; file := f; stdout := o |}
    = ({| tasks := t0; next_id := n; file := saved t0 n;
          stdout := o ++ [[Lit "Task "; Fmt a; Lit " updated."]] |}, inr tt)).
  { intros es t0 -> Hes. unfold bind, save_tasks, found_task, lift, getitem; simpl.
    rewrite list_lookup_insert_eq by done. by rewrite Hes. }
  unfold cmd_edit; simpl.
  destruct i as [|p|p]; [done| |];
    cbn [bind get_tasks lift iterate tasks];
    rewrite Hf; cbn [bind];
    (rewrite (bind_eq _ _ {| tasks := PList items; next_id := n; file := f; stdout := o |}
                      {| tasks := PList items; next_id := n; file := f; stdout := o |}
                      (PDict entries));
     [|by unfold found_task; simpl; rewrite Hk]);
    (destruct entries as [|kv rest]; [done|]); cbn [truthy];
    rewrite (bind_eq _ _ _ _ _ Hstep1);
    (destruct est as [e|]; [destruct (e <? 0); [done|] |]).
  1,3: rewrite (bind_eq _ _ _
                 {| tasks := PList (<[k := PDict (dict_set entries1 "estimate" (PInt e))]> items);
                    next_id := n; file := f; stdout := o |} tt);
       [ apply (Hfin (dict_set entries1 "estimate" (PInt e))); [done|];
         by rewrite dict_get_set_ne
       | unfold found_task_set; simpl;
         rewrite list_lookup_insert_eq by done;
         by rewrite list_insert_insert_eq ].
  all: by apply (Hfin entries1).
Qed.

Lemma writes_locals_cmd_edit args : writes_locals (cmd_edit args).
Proof.
  intros [t n f o]. destruct args as [c desc est [i|]]; [|by left].
  destruct (decide (i = 0)) as [->|Hi]; [by left|].
  destruct (iterate t) as [e|items] eqn:Hit.
  { left. unfold cmd_edit; simpl. destruct i; [done| |];
      cbn [bind get_tasks lift tasks]; by rewrite Hit. }
  destruct (find_task items i) as [e|[k|]] eqn:Hf.
  1,3: left; unfold cmd_edit; simpl; destruct i; [done| |];
       cbn [bind get_tasks lift tasks]; rewrite Hit; cbn [bind]; by rewrite Hf.
  pose proof (iterate_find_Some _ _ _ _ Hit Hf) as ->.
  destruct (find_task_Some _ _ _ Hf) as (entries & a & Hk & Ha & _).
  rewrite (cmd_edit_found c desc est i items k entries a n f o Hi Hf Hk Ha).
  cbv zeta. destruct est as [e|]; [destruct (e <? 0)|]; [by left|by right|by right].
Qed.

Lemma writes_locals_dispatch args : writes_locals (dispatch args).
Proof.
  unfold dispatch.
  destruct (String.eqb _ "add"); [apply writes_locals_cmd_add|].
  destruct (String.eqb _ "list");
    [apply writes_locals_read_only, read_only_cmd_list|].
  destruct (String.eqb _ "view");
    [apply writes_locals_read_only, read_only_cmd_view|].
  destruct (String.eqb _ "edit"); [apply writes_locals_cmd_edit|].
  apply writes_locals_read_only, read_only_print.
Qed.

(** ** Further properties of the command handler *)

(** X1. Whatever the file holds and whatever the arguments are, an
    invocation either leaves the file exactly as it was, or it returns
    without an exception and the file holds the locals [tasks] and
    [next_id] it finished with.  A run that raises writes nothing. *)
Theorem file_written_only_with_final_locals args fs :
  disk_after (main args fs) = fs \/
  (raised (main args fs) = None /\
   exists t n, locals (main args fs) = Some (t, n) /\
               disk_after (main args fs) = saved t n).
Proof.
  unfold main. destruct (load_tasks fs) as [e|[t n]]; [by left|].
  pose proof (writes_locals_dispatch args
                {| tasks := t; next_id := n; file := fs; stdout := [] |}) as H.
  destruct (dispatch args _) as [s r]; simpl in *.
  destruct H as [H|[-> H]]; [by left|].
  right. split; [done|]. by exists (tasks s), (next_id s).
Qed.

(** X2. [list] and [view] never write the file and never change the
    locals, whatever the file holds and whatever options are given:
    the locals at the end are what [load_tasks] returned. *)
Theorem list_and_view_read_only fs desc est i :
  let loaded := match load_tasks fs with inr p => Some p | inl _ => None end in
  (disk_after (main (cli "list" desc est i) fs) = fs /\
   locals (main (cli "list" desc est i) fs) = loaded) /\
  (disk_after (main (cli "view" desc est i) fs) = fs /\
   locals (main (cli "view" desc est i) fs) = loaded).
Proof.
  split.
  - apply (main_read_only cmd_list); [done|apply read_only_cmd_list].
  - apply (main_read_only (cmd_view (cli "view" desc est i)));
      [done|apply read_only_cmd_view].
Qed.

(** X3. When the file exists and does not hold a JSON object, every
    invocation, whatever its command, raises before it prints anything
    and leaves the file as it is: the decoding error for text that is
    not JSON, an attribute error for a JSON value of another kind. *)
Theorem file_without_object_raises args :
  main args (Some Garbled)
  = {| locals := None; disk_after := Some Garbled; printed := [];
       raised := Some JSONDecodeError |} /\
  (forall v,
     match v with
     | PDict _ => True
     | _ => main args (Some (Json v))
            = {| locals := None; disk_after := Some (Json v); printed := [];
                 raised := Some AttributeError |}
     end).
Proof. split; [done|]. by intros []. Qed.

(** X4. [load_tasks] fills in each missing key of a stored object on
    its own: an absent [tasks] is the empty list, an absent [next_id]
    is 1.  So on a file that holds tasks but no [next_id], a valid
    [add] gives the new task the id 1, whatever ids the stored tasks
    carry, and writes [next_id] 2. *)
Theorem missing_keys_default entries :
  load_tasks (Some (Json (PDict entries)))
  = inr (default (PList []) (dict_get entries "tasks"),
         default (PInt 1) (dict_get entries "next_id")) /\
  (forall ts desc est i,
     dict_get entries "tasks" = Some (tasks_obj ts) ->
     dict_get entries "next_id" = None ->
     desc <> EmptyString ->
     0 <= est ->
     let t := {| task_id := 1; task_description := desc; task_estimate := est |} in
     let d' := {| doc_tasks := ts ++ [t]; doc_next_id := 2 |} in
     main (cli "add" (Some desc) (Some est) i) (Some (Json (PDict entries)))
     = {| locals := Some (doc_locals d'); disk_after := stored d';
          printed := [added_line t]; raised := None |}).
Proof.
  split.
  - simpl. by destruct (dict_get entries "tasks"), (dict_get entries "next_id").
  - intros ts desc est i Ht Hn Hd He.
    apply (main_add_some _ {| doc_tasks := ts; doc_next_id := 1 |}); [|done|done].
    unfold holds. simpl. by rewrite Ht, Hn.
Qed.

Lemma missing_keys_default_witness :
  let t0 := {| task_id := 1; task_description := "write spec"; task_estimate := 3 |} in
  let t := {| task_id := 1; task_description := "review"; task_estimate := 2 |} in
  let d' := {| doc_tasks := [t0; t]; doc_next_id := 2 |} in
  main (cli "add" (Some "review") (Some 2) None)
       (Some (Json (PDict [("tasks", tasks_obj [t0])])))
  = {| locals := Some (doc_locals d'); disk_after := stored d';
       printed := [added_line t]; raised := None |}.
Proof.
  intros t0 t d'.
  apply (proj2 (missing_keys_default [("tasks", tasks_obj [t0])]) [t0] "review" 2 None).
  - reflexivity.
  - reflexivity.
  - discriminate.
  - lia.
Defined.

(** X5. A command name other than [add], [list], [view] and [edit] is
    answered with the unknown-command line and nothing else happens,
    on every file [load_tasks] accepts. *)
Theorem unknown_command_reported fs c desc est i p :
  load_tasks fs = inr p ->
  c ∉ ["add"; "list"; "view"; "edit"] ->
  main (cli c desc est i) fs
  = {| locals := Some p; disk_after := fs;
       printed := [[Lit "Unknown command: "; Fmt (PStr c)]];
       raised := None |}.
Proof.
  intros H Hc. unfold main. rewrite H. destruct p as [t n].
  unfold dispatch; simpl.
  destruct (String.eqb_spec c "add") as [->|_];
    [destruct Hc; rewrite !elem_of_cons; auto|].
  destruct (String.eqb_spec c "list") as [->|_];
    [destruct Hc; rewrite !elem_of_cons; auto|].
  destruct (String.eqb_spec c "view") as [->|_];
    [destruct Hc; rewrite !elem_of_cons; auto|].
  destruct (String.eqb_spec c "edit") as [->|_];
    [destruct Hc; rewrite !elem_of_cons; auto|].
  done.
Qed.

Lemma unknown_command_reported_witness :
  main (cli "delete" None None (Some 1)) None
  = {| locals := Some (PList [], PInt 1); disk_after := None;
       printed := [[Lit "Unknown command: "; Fmt (PStr "delete")]];
       raised := None |}.
Proof.
  apply (unknown_command_reported None "delete" None None (Some 1) (PList [], PInt 1)).
  - reflexivity.
  - rewrite !elem_of_cons, elem_of_nil.
    intros [H|[H|[H|[H|H]]]]; try discriminate H; exact H.
Defined.

(** ** Commands on a stored document, continued *)

Lemma main_edit_ok fs d desc est i k t :
  holds fs d ->
  i <> 0 ->
  index_of (doc_tasks d) i = Some k ->
  doc_tasks d !! k = Some t ->
  (forall e, est = Some e -> 0 <= e) ->
  main (cli "edit" desc est (Some i)) fs
  = returns (with_tasks d (<[k := edited desc est t]> (doc_tasks d)))
            (stored (with_tasks d (<[k := edited desc est t]> (doc_tasks d))))
            [updated_line (task_id t)].
Proof.
  intros H Hi Hx Hk He.
  rewrite (main_edit_found fs d desc est i k t H Hi Hx Hk). cbv zeta.
  destruct est as [e|]; [|done].
  specialize (He e eq_refl). by destruct (Z.ltb_spec e 0); [lia|].
Qed.

Lemma index_of_insert ts k t t' i :
  ts !! k = Some t ->
  task_id t' = task_id t ->
  index_of (<[k := t']> ts) i = index_of ts i.
Proof.
  revert k. induction ts as [|u ts IH]; intros [|k] Hk Hid; simpl in *; try done.
  - injection Hk as ->. by rewrite Hid.
  - by rewrite (IH k).
Qed.

Lemma edited_id desc est t : task_id (edited desc est t) = task_id t.
Proof. by destruct est, desc as [[|c s]|]. Qed.

Lemma edited_twice desc est t :
  edited desc est (edited desc est t) = edited desc est t.
Proof. by destruct est, desc as [[|c s]|]. Qed.

Lemma edited_well_formed desc est t :
  (forall e, est = Some e -> 0 <= e) ->
  well_formed_task t -> well_formed_task (edited desc est t).
Proof.
  intros He (Hid & Hd & Hest). unfold well_formed_task.
  destruct est as [e|]; [specialize (He e eq_refl)|];
    destruct desc as [[|c s]|]; simpl; split_and!; done.
Qed.

(** The three ways an invocation can leave the file of a stored document. *)
Lemma main_writes args fs d :
  holds fs d ->
  disk_after (main args fs) = fs \/
  (exists s e, s <> EmptyString /\ 0 <= e /\
               disk_after (main args fs) = stored (added d s e)) \/
  (exists k t desc est,
     doc_tasks d !! k = Some t /\
     (forall e, est = Some e -> 0 <= e) /\
     disk_after (main args fs)
     = stored (with_tasks d (<[k := edited desc est t]> (doc_tasks d)))).
Proof.
  intros H. destruct args as [c desc est i].
  change (Build_Namespace c desc est i) with (cli c desc est i).
  destruct (decide (c ∈ ["add"; "list"; "view"; "edit"])) as [Hc|Hc].
  2: { left. by rewrite (main_unknown fs d c desc est i H Hc). }
  rewrite !elem_of_cons in Hc.
  destruct Hc as [-> | [-> | [-> | [-> | Hc]]]]; [| | | |by inversion Hc].
  - destruct desc as [[|a s]|].
    + left. rewrite (main_add_no_description fs d (Some EmptyString) est i H); auto.
    + destruct est as [e|]; [destruct (Z.lt_ge_cases e 0)|].
      * left. by rewrite (main_add_negative fs d a s e i H).
      * right. left. exists (String a s), e. split_and!; [done|done|].
        by rewrite (main_add_ok fs d a s (Some e) i H).
      * right. left. exists (String a s), 0. split_and!; [done|done|].
        by rewrite (main_add_ok fs d a s None i H).
    + left. rewrite (main_add_no_description fs d None est i H); auto.
  - left. by rewrite (main_list fs d desc est i H).
  - left. apply (main_read_only (cmd_view (cli "view" desc est i)));
      [done|apply read_only_cmd_view].
  - destruct i as [i|].
    2: { left. rewrite (main_edit_no_id fs d desc est None H); auto. }
    destruct (decide (i = 0)) as [->|Hi].
    { left. rewrite (main_edit_no_id fs d desc est (Some 0) H); auto. }
    destruct (index_of (doc_tasks d) i) as [k|] eqn:Hx.
    2: { left. by rewrite (main_edit_missing fs d desc est i H Hi Hx). }
    destruct (index_of_Some _ _ _ Hx) as (t & Hk & _).
    destruct est as [e|]; [destruct (Z.lt_ge_cases e 0)|].
    + left. rewrite (main_edit_found fs d desc (Some e) i k t H Hi Hx Hk).
      cbv zeta. by destruct (Z.ltb_spec e 0); [|lia].
    + right. right. exists k, t, desc, (Some e). split_and!; [done| |].
      * by intros ? [= <-].
      * rewrite (main_edit_ok fs d desc (Some e) i k t H Hi Hx Hk); [done|].
        by intros ? [= <-].
    + right. right. exists k, t, desc, None. split_and!; [done|done|].
      by rewrite (main_edit_ok fs d desc None i k t H Hi Hx Hk).
Qed.

(** X6. On a stored document [list] prints the header line and then one
    line per task, in the order of the task sequence; with no tasks it
    prints the no-tasks line instead.  It raises nothing and changes
    nothing. *)
Theorem list_prints_tasks_in_order fs d desc est i :
  holds fs d ->
  main (cli "list" desc est i) fs
  = {| locals := Some (doc_locals d);
       disk_after := fs;
       printed := match doc_tasks d with
                  | [] => [[Lit "No tasks found."]]
                  | _ :: _ => [Lit "Tasks:"] :: (list_line <$> doc_tasks d)
                  end;
       raised := None |}.
Proof. intros H. by apply main_list. Qed.

Lemma list_prints_tasks_in_order_witness :
  let t1 := {| task_id := 1; task_description := "write spec"; task_estimate := 3 |} in
  let t2 := {| task_id := 2; task_description := "review"; task_estimate := 0 |} in
  let d := {| doc_tasks := [t1; t2]; doc_next_id := 3 |} in
  main (cli "list" None None None) (stored d)
  = {| locals := Some (doc_locals d);
       disk_after := stored d;
       printed := [[Lit "Tasks:"]; list_line t1; list_line t2];
       raised := None |}.
Proof.
  intros t1 t2 d.
  apply (list_prints_tasks_in_order (stored d) d None None None).
  reflexivity.
Defined.

(** X7. On a stored document [view] with an id other than 0 that some
    task carries prints the id, the description and the estimate of the
    first task carrying it, and changes nothing. *)
Theorem view_shows_first_match fs d desc est i t :
  holds fs d ->
  i <> 0 ->
  t ∈ doc_tasks d ->
  task_id t = i ->
  exists k t0,
    doc_tasks d !! k = Some t0 /\ task_id t0 = i /\
    (forall j u, (j < k)%nat -> doc_tasks d !! j = Some u -> task_id u <> i) /\
    main (cli "view" desc est (Some i)) fs
    = {| locals := Some (doc_locals d); disk_after := fs;
         printed := view_lines t0; raised := None |}.
Proof.
  intros H Hi Hin Hid.
  destruct (index_of_found _ _ _ Hin Hid) as (k & t0 & Hx & Hk & Hid0 & Hfirst).
  exists k, t0. split_and!; try done.
  by apply (main_view_found fs d desc est i k t0).
Qed.

Lemma view_shows_first_match_witness :
  let t1 := {| task_id := 4; task_description := "first"; task_estimate := 1 |} in
  let t2 := {| task_id := 4; task_description := "second"; task_estimate := 2 |} in
  let d := {| doc_tasks := [t1; t2]; doc_next_id := 5 |} in
  exists k t0,
    doc_tasks d !! k = Some t0 /\ task_id t0 = 4 /\
    (forall j u, (j < k)%nat -> doc_tasks d !! j = Some u -> task_id u <> 4) /\
    main (cli "view" None None (Some 4)) (stored d)
    = {| locals := Some (doc_locals d); disk_after := stored d;
         printed := view_lines t0; raised := None |}.
Proof.
  intros t1 t2 d.
  apply (view_shows_first_match (stored d) d None None 4 t2).
  - reflexivity.
  - lia.
  - apply list_elem_of_In. right. left. reflexivity.
  - reflexivity.
Defined.

(** X8. On a stored document [edit] with an id other than 0 that some
    task carries, and an estimate that is absent or not negative,
    replaces the first task carrying the id by the task with the
    supplied description (when not empty) and the supplied estimate,
    writes the document and prints the update line. *)
Theorem edit_updates_first_match fs d desc est i t :
  holds fs d ->
  i <> 0 ->
  t ∈ doc_tasks d ->
  task_id t = i ->
  (forall e, est = Some e -> 0 <= e) ->
  exists k t0,
    let d' := with_tasks d (<[k := edited desc est t0]> (doc_tasks d)) in
    doc_tasks d !! k = Some t0 /\ task_id t0 = i /\
    (forall j u, (j < k)%nat -> doc_tasks d !! j = Some u -> task_id u <> i) /\
    main (cli "edit" desc est (Some i)) fs
    = {| locals := Some (doc_locals d'); disk_after := stored d';
         printed := [updated_line i]; raised := None |}.
Proof.
  intros H Hi Hin Hid He.
  destruct (index_of_found _ _ _ Hin Hid) as (k & t0 & Hx & Hk & Hid0 & Hfirst).
  exists k, t0. cbv zeta. split_and!; try done.
  rewrite (main_edit_ok fs d desc est i k t0 H Hi Hx Hk He). by rewrite Hid0.
Qed.

Lemma edit_updates_first_match_witness :
  let t := {| task_id := 1; task_description := "write spec"; task_estimate := 3 |} in
  let d := {| doc_tasks := [t]; doc_next_id := 2 |} in
  exists k t0,
    let d' := with_tasks d (<[k := edited (Some "draft") (Some 5) t0]> (doc_tasks d)) in
    doc_tasks d !! k = Some t0 /\ task_id t0 = 1 /\
    (forall j u, (j < k)%nat -> doc_tasks d !! j = Some u -> task_id u <> 1) /\
    main (cli "edit" (Some "draft") (Some 5) (Some 1)) (stored d)
    = {| locals := Some (doc_locals d'); disk_after := stored d';
         printed := [updated_line 1]; raised := None |}.
Proof.
  intros t d.
  apply (edit_updates_first_match (stored d) d (Some "draft") (Some 5) 1 t).
  - reflexivity.
  - lia.
  - apply list_elem_of_In. left. reflexivity.
  - reflexivity.
  - intros e He. injection He as <-. lia.
Defined.

(** X9. After such an [edit], [view] with the same id shows the edited
    task: the description and the estimate [edit] was given, and the
    fields it was not given as they were. *)
Theorem edit_then_view fs d desc est i t desc' est' :
  holds fs d ->
  i <> 0 ->
  t ∈ doc_tasks d ->
  task_id t = i ->
  (forall e, est = Some e -> 0 <= e) ->
  let r := main (cli "edit" desc est (Some i)) fs in
  exists k t0,
    doc_tasks d !! k = Some t0 /\ task_id t0 = i /\
    (forall j u, (j < k)%nat -> doc_tasks d !! j = Some u -> task_id u <> i) /\
    printed (main (cli "view" desc' est' (Some i)) (disk_after r))
    = view_lines (edited desc est t0).
Proof.
  intros H Hi Hin Hid He r. subst r.
  destruct (index_of_found _ _ _ Hin Hid) as (k & t0 & Hx & Hk & Hid0 & Hfirst).
  exists k, t0. split_and!; try done.
  rewrite (main_edit_ok fs d desc est i k t0 H Hi Hx Hk He). simpl disk_after.
  rewrite (main_view_found _ _ desc' est' i k (edited desc est t0)
             (holds_stored _) Hi); [done| |].
  - simpl. rewrite (index_of_insert _ _ t0); [done|done|apply edited_id].
  - simpl. apply list_lookup_insert_eq. by eapply lookup_lt_Some.
Qed.

Lemma edit_then_view_witness :
  let t := {| task_id := 1; task_description := "write spec"; task_estimate := 3 |} in
  let d := {| doc_tasks := [t]; doc_next_id := 2 |} in
  let r := main (cli "edit" None (Some 5) (Some 1)) (stored d) in
  exists k t0,
    doc_tasks d !! k = Some t0 /\ task_id t0 = 1 /\
    (forall j u, (j < k)%nat -> doc_tasks d !! j = Some u -> task_id u <> 1) /\
    printed (main (cli "view" None None (Some 1)) (disk_after r))
    = view_lines (edited None (Some 5) t0).
Proof.
  intros t d.
  apply (edit_then_view (stored d) d None (Some 5) 1 t None None).
  - reflexivity.
  - lia.
  - apply list_elem_of_In. left. reflexivity.
  - reflexivity.
  - intros e He. injection He as <-. lia.
Defined.

(** X10. [edit] is idempotent on a stored document: running the same
    [edit] again on the file the first run left gives the same file and
    the same output, whatever the arguments are. *)
Theorem edit_twice_same_as_once fs d desc est i :
  holds fs d ->
  let r1 := main (cli "edit" desc est i) fs in
  let r2 := main (cli "edit" desc est i) (disk_after r1) in
  disk_after r2 = disk_after r1 /\ printed r2 = printed r1 /\ raised r2 = raised r1.
Proof.
  intros H r1 r2.
  assert (Hsame : disk_after r1 = fs -> disk_after r2 = disk_after r1 /\
                  printed r2 = printed r1 /\ raised r2 = raised r1).
  { intros E. subst r2. by rewrite E. }
  destruct i as [i|].
  2: { apply Hsame. subst r1. rewrite (main_edit_no_id fs d desc est None H); auto. }
  destruct (decide (i = 0)) as [->|Hi].
  { apply Hsame. subst r1. rewrite (main_edit_no_id fs d desc est (Some 0) H); auto. }
  destruct (index_of (doc_tasks d) i) as [k|] eqn:Hx.
  2: { apply Hsame. subst r1. by rewrite (main_edit_missing fs d desc est i H Hi Hx). }
  destruct (index_of_Some _ _ _ Hx) as (t & Hk & _).
  assert (Hcases : (exists e, est = Some e /\ e < 0) \/
                    (forall e, est = Some e -> 0 <= e)).
  { destruct est as [e|]; [destruct (Z.lt_ge_cases e 0)|].
    - left. eauto.
    - right. by intros ? [= <-].
    - by right. }
  destruct Hcases as [(e & He' & He)|He].
  { apply Hsame. subst r1 est.
    rewrite (main_edit_found fs d desc (Some e) i k t H Hi Hx Hk). cbv zeta.
    by destruct (Z.ltb_spec e 0); [|lia]. }
  subst r2 r1.
  rewrite (main_edit_ok fs d desc est i k t H Hi Hx Hk He). simpl.
  rewrite (main_edit_ok _ _ desc est i k (edited desc est t) (holds_stored _) Hi); simpl.
  - rewrite list_insert_insert_eq, edited_twice, edited_id. done.
  - rewrite (index_of_insert _ _ t); [done|done|apply edited_id].
  - apply list_lookup_insert_eq. by eapply lookup_lt_Some.
  - done.
Qed.

Lemma edit_twice_same_as_once_witness :
  let t := {| task_id := 1; task_description := "write spec"; task_estimate := 3 |} in
  let d := {| doc_tasks := [t]; doc_next_id := 2 |} in
  let r1 := main (cli "edit" (Some "draft") (Some 5) (Some 1)) (stored d) in
  let r2 := main (cli "edit" (Some "draft") (Some 5) (Some 1)) (disk_after r1) in
  disk_after r2 = disk_after r1 /\ printed r2 = printed r1 /\ raised r2 = raised r1.
Proof.
  intros t d.
  apply (edit_twice_same_as_once (stored d) d (Some "draft") (Some 5) (Some 1)).
  reflexivity.
Defined.

(** X11. [add] without [--estimate] stores the estimate 0, and [add]
    never looks at [--id]: whatever id is given, the new task gets the
    prior [next_id]. *)
Theorem add_defaults_estimate_ignores_id fs d desc i :
  holds fs d ->
  desc <> EmptyString ->
  let t := {| task_id := doc_next_id d; task_description := desc; task_estimate := 0 |} in
  let d' := {| doc_tasks := doc_tasks d ++ [t]; doc_next_id := doc_next_id d + 1 |} in
  main (cli "add" (Some desc) None i) fs
  = {| locals := Some (doc_locals d'); disk_after := stored d';
       printed := [added_line t]; raised := None |}.
Proof.
  intros H Hd. destruct desc as [|c s]; [done|].
  by apply (main_add_ok fs d c s None i).
Qed.

Lemma add_defaults_estimate_ignores_id_witness :
  let t := {| task_id := 1; task_description := "write spec"; task_estimate := 0 |} in
  let d' := {| doc_tasks := [t]; doc_next_id := 2 |} in
  main (cli "add" (Some "write spec") None (Some 9)) None
  = {| locals := Some (doc_locals d'); disk_after := stored d';
       printed := [added_line t]; raised := None |}.
Proof.
  apply (add_defaults_estimate_ignores_id None empty_document "write spec" (Some 9)).
  - reflexivity.
  - discriminate.
Defined.

Lemma numbered_cons first p inputs :
  numbered first (p :: inputs)
  = {| task_id := first; task_description := p.1; task_estimate := p.2 |}
      :: numbered (first + 1) inputs.
Proof.
  unfold numbered. rewrite imap_cons. f_equal.
  - f_equal. lia.
  - apply imap_ext. intros k q _. simpl. f_equal. lia.
Qed.

Lemma run_all_cons args cmds fs :
  run_all (args :: cmds) fs = run_all cmds (disk_after (main args fs)).
Proof. reflexivity. Qed.

(** X12. A run of [add]s with non-empty descriptions and non-negative
    estimates, each starting from the file the last one left, appends
    one task per invocation, in order, with consecutive ids starting at
    the [next_id] of the document it began with, and leaves [next_id]
    raised by the number of tasks added. *)
Theorem adds_number_consecutively inputs fs d :
  holds fs d ->
  Forall (fun p => p.1 <> EmptyString /\ 0 <= p.2) inputs ->
  holds (run_all (add_args <$> inputs) fs)
        {| doc_tasks := doc_tasks d ++ numbered (doc_next_id d) inputs;
           doc_next_id := doc_next_id d + Z.of_nat (length inputs) |}.
Proof.
  intros H Hall. revert fs d H.
  induction Hall as [|[s e] inputs [Hs He] _ IH]; intros fs d H.
  - simpl. rewrite app_nil_r, Z.add_0_r. by destruct d.
  - rewrite fmap_cons, run_all_cons. simpl in Hs, He.
    change (add_args (s, e)) with (cli "add" (Some s) (Some e) None).
    rewrite (main_add_some fs d s e None H Hs He).
    change (disk_after (returns _ ?f _)) with f.
    specialize (IH _ (added d s e) (holds_stored _)).
    rewrite numbered_cons. simpl in IH.
    rewrite <- app_assoc in IH. simpl in IH.
    rewrite length_cons, Nat2Z.inj_succ.
    by replace (doc_next_id d + Z.succ (Z.of_nat (length inputs)))
      with (doc_next_id d + 1 + Z.of_nat (length inputs)) by lia.
Qed.

Lemma adds_number_consecutively_witness :
  holds (run_all (add_args <$> [("write spec", 3); ("review", 0)]) None)
        {| doc_tasks := [ {| task_id := 1; task_description := "write spec";
                             task_estimate := 3 |};
                          {| task_id := 2; task_description := "review";
                             task_estimate := 0 |} ];
           doc_next_id := 3 |}.
Proof.
  apply (adds_number_consecutively [("write spec", 3); ("review", 0)]
           None empty_document).
  - reflexivity.
  - repeat constructor; simpl; try discriminate; lia.
Defined.

Lemma data_model_added d s e :
  s <> EmptyString -> 0 <= e -> data_model d -> data_model (added d s e).
Proof.
  intros Hs He (Hn & Hall & Hnd). split_and!; simpl.
  - lia.
  - apply Forall_app. split.
    + eapply Forall_impl; [done|]. simpl. intros t [Hw Hlt]. split; [done|lia].
    + repeat constructor; simpl; try done; lia.
  - rewrite fmap_app. change (task_id <$> [new_task d s e]) with [doc_next_id d].
    apply NoDup_app. split_and!; [done| |apply NoDup_singleton].
    intros x Hx. rewrite list_elem_of_singleton. intros ->.
    apply list_elem_of_fmap in Hx as (t & Ht & Hin).
    rewrite Forall_forall in Hall. destruct (Hall t Hin) as [_ Hlt]. lia.
Qed.

Lemma data_model_edited d k t desc est :
  doc_tasks d !! k = Some t ->
  (forall e, est = Some e -> 0 <= e) ->
  data_model d ->
  data_model (with_tasks d (<[k := edited desc est t]> (doc_tasks d))).
Proof.
  intros Hk He (Hn & Hall & Hnd). split_and!; simpl.
  - done.
  - apply Forall_insert; [done|].
    destruct (Forall_lookup_1 _ _ _ _ Hall Hk) as [Hw Hlt].
    split; [by apply edited_well_formed|]. by rewrite edited_id.
  - rewrite list_fmap_insert, edited_id.
    rewrite list_insert_id; [done|]. by rewrite list_lookup_fmap, Hk.
Qed.

(** X13. Every document reached from the empty store by [add], [list],
    [view] and [edit] satisfies the whole data model: ids are positive,
    below [next_id] and pairwise distinct, descriptions are not empty,
    and estimates are not negative. *)
Theorem reachable_data_model fs :
  reachable fs -> exists d, holds fs d /\ data_model d.
Proof.
  induction 1 as [fs H | args fs _ (d & H & Hd) _].
  - exists empty_document. split; [done|].
    split_and!; [done|constructor|constructor].
  - destruct (main_writes args fs d H)
      as [-> | [(s & e & Hs & He & ->) | (k & t & desc & est & Hk & He & ->)]].
    + by exists d.
    + eexists. split; [apply holds_stored|]. by apply data_model_added.
    + eexists. split; [apply holds_stored|]. by apply data_model_edited.
Qed.

Lemma reachable_data_model_witness :
  exists d,
    holds (disk_after (main (cli "add" (Some "write spec") (Some 3) None) None)) d /\
    data_model d.
Proof.
  apply reachable_data_model.
  apply reachable_step.
  - apply reachable_empty. reflexivity.
  - apply list_elem_of_In. left. reflexivity.
Defined.

(** X14. No invocation removes a task, changes the id of a task, or
    lowers [next_id]: the ids of the document before are a prefix of
    the ids of the document after. *)
Theorem no_task_removed args fs d :
  holds fs d ->
  exists d',
    holds (disk_after (main args fs)) d' /\
    doc_next_id d <= doc_next_id d' /\
    (task_id <$> doc_tasks d) `prefix_of` (task_id <$> doc_tasks d').
Proof.
  intros H.
  destruct (main_writes args fs d H)
    as [-> | [(s & e & Hs & He & ->) | (k & t & desc & est & Hk & He & ->)]].
  - exists d. split_and!; [done|lia|done].
  - eexists. split; [apply holds_stored|]. simpl. split; [lia|].
    rewrite fmap_app. by apply prefix_app_r.
  - eexists. split; [apply holds_stored|]. simpl. split; [lia|].
    rewrite list_fmap_insert, edited_id.
    rewrite list_insert_id; [done|]. by rewrite list_lookup_fmap, Hk.
Qed.

Lemma no_task_removed_witness :
  let t := {| task_id := 1; task_description := "write spec"; task_estimate := 3 |} in
  let d := {| doc_tasks := [t]; doc_next_id := 2 |} in
  exists d',
    holds (disk_after (main (cli "edit" (Some "draft") None (Some 1)) (stored d))) d' /\
    doc_next_id d <= doc_next_id d' /\
    (task_id <$> doc_tasks d) `prefix_of` (task_id <$> doc_tasks d').
Proof.
  intros t d.
  apply (no_task_removed (cli "edit" (Some "draft") None (Some 1)) (stored d) d).
  reflexivity.
Defined.

(** X15. On a stored document no invocation raises, whatever the
    command and the options are, and the locals it ends with hold a
    document again. *)
Theorem stored_document_never_raises args fs d :
  holds fs d ->
  raised (main args fs) = None /\
  exists d', locals (main args fs) = Some (doc_locals d').
Proof.
  intros H. destruct (main_step args fs d H) as (d' & out & _ & [-> | ->]);
    (split; [done|by exists d']).
Qed.

Lemma stored_document_never_raises_witness :
  raised (main (cli "view" None None (Some 3)) None) = None /\
  exists d', locals (main (cli "view" None None (Some 3)) None) = Some (doc_locals d').
Proof.
  apply (stored_document_never_raises (cli "view" None None (Some 3)) None empty_document).
  reflexivity.
Defined.

(** ** Properties of [idempotent_function.py] *)

(** X16. [set_resource_value] is idempotent: a second call with the
    same value returns the same object and leaves the heap as the first
    call left it; the object then holds the value, and no other object
    is touched. *)
Theorem set_resource_value_idempotent h r v x :
  h !! r = Some v ->
  exists h1,
    set_resource_value h r x = Some (h1, r) /\
    set_resource_value h1 r x = Some (h1, r) /\
    h1 !! r = Some x /\
    (forall r', r' <> r -> h1 !! r' = h !! r').
Proof.
  intros Hr. assert (Hlen : (r < length h)%nat) by by eapply lookup_lt_Some.
  exists (<[r := x]> h). unfold set_resource_value.
  rewrite Hr, list_lookup_insert_eq, list_insert_insert_eq by done.
  split_and!; try done. intros r' Hne. by rewrite list_lookup_insert_ne.
Qed.

Lemma set_resource_value_idempotent_witness :
  exists h1,
    set_resource_value [0] 0 10 = Some (h1, 0%nat) /\
    set_resource_value h1 0 10 = Some (h1, 0%nat) /\
    h1 !! 0%nat = Some 10 /\
    (forall r', r' <> 0%nat -> h1 !! r' = [0] !! r').
Proof.
  apply (set_resource_value_idempotent [0] 0%nat 0 10). reflexivity.
Defined.

(** X17. [increment_resource_value] is not idempotent: each call raises
    the value of the object by one and touches no other object, so a
    second call leaves a heap different from the one the first left. *)
Theorem increment_resource_value_not_idempotent h r v :
  h !! r = Some v ->
  exists h1 h2,
    increment_resource_value h r = Some (h1, r) /\
    increment_resource_value h1 r = Some (h2, r) /\
    h1 !! r = Some (v + 1) /\
    h2 !! r = Some (v + 2) /\
    h2 <> h1 /\
    (forall r', r' <> r -> h2 !! r' = h !! r').
Proof.
  intros Hr. assert (Hlen : (r < length h)%nat) by by eapply lookup_lt_Some.
  exists (<[r := v + 1]> h), (<[r := v + 1 + 1]> h).
  unfold increment_resource_value.
  rewrite Hr, list_lookup_insert_eq, list_insert_insert_eq by done.
  split_and!; try done.
  - rewrite list_lookup_insert_eq by done. f_equal. lia.
  - intros E. apply (f_equal (fun l => l !! r)) in E.
    rewrite !list_lookup_insert_eq in E by done. injection E. lia.
  - intros r' Hne. by rewrite list_lookup_insert_ne.
Qed.

Lemma increment_resource_value_not_idempotent_witness :
  exists h1 h2,
    increment_resource_value [0] 0 = Some (h1, 0%nat) /\
    increment_resource_value h1 0 = Some (h2, 0%nat) /\
    h1 !! 0%nat = Some (0 + 1) /\
    h2 !! 0%nat = Some (0 + 2) /\
    h2 <> h1 /\
    (forall r', r' <> 0%nat -> h2 !! r' = [0] !! r').
Proof.
  apply (increment_resource_value_not_idempotent [0] 0%nat 0). reflexivity.
Defined.

(** X18. [ensure_resource_exists] with a current resource that holds
    the requested value returns that very object and creates nothing,
    so further calls give the same object again.  Without a current
    resource, or with one that holds another value, it returns a new
    object: none of the existing ones, holding the requested value,
    with every existing object keeping its value. *)
Theorem ensure_resource_exists_cases h x :
  (forall r, h !! r = Some x ->
     ensure_resource_exists h x (Some r) = Some (h, r)) /\
  (forall cur,
     match cur with
     | Some r => exists v, h !! r = Some v /\ v <> x
     | None => True
     end ->
     exists h1 r1,
       ensure_resource_exists h x cur = Some (h1, r1) /\
       h !! r1 = None /\
       h1 !! r1 = Some x /\
       (forall r' w, h !! r' = Some w -> h1 !! r' = Some w)).
Proof.
  split.
  - intros r Hr. unfold ensure_resource_exists. by rewrite Hr, Z.eqb_refl.
  - intros cur Hcur. exists (h ++ [x])%list, (length h).
    split_and!.
    + destruct cur as [r|]; [|done]. destruct Hcur as (v & Hr & Hne).
      unfold ensure_resource_exists. rewrite Hr.
      by destruct (Z.eqb_spec v x).
    + by apply lookup_ge_None.
    + by rewrite lookup_app_r, Nat.sub_diag.
    + intros r' w Hr'. by apply lookup_app_l_Some.
Qed.

Lemma ensure_resource_exists_cases_witness :
  ensure_resource_exists [5] 5 (Some 0%nat) = Some ([5], 0%nat) /\
  exists h1 r1,
    ensure_resource_exists [5] 10 (Some 0%nat) = Some (h1, r1) /\
    [5] !! r1 = None /\
    h1 !! r1 = Some 10 /\
    (forall r' w, [5] !! r' = Some w -> h1 !! r' = Some w).
Proof.
  split.
  - apply (proj1 (ensure_resource_exists_cases [5] 5) 0%nat). reflexivity.
  - apply (proj2 (ensure_resource_exists_cases [5] 10) (Some 0%nat)).
    exists 5. split; [reflexivity|lia].
Defined.

(** X19. Two calls of [create_resource] with the same value return two
    distinct objects holding that value, and the two compare equal: by
    [__eq__] the comparison [!=] between them is false, which is what
    the first assertion of [test_create_resource_not_idempotent]
    requires to be true. *)
Theorem create_resource_twice_equal h v :
  let '(h1, r1) := create_resource h v in
  let '(h2, r2) := create_resource h1 v in
  r1 <> r2 /\
  h2 !! r1 = Some v /\ h2 !! r2 = Some v /\
  Resource_eq h2 r1 r2 = Some true /\
  Resource_ne h2 r1 r2 = Some false.
Proof.
  unfold create_resource, Resource, Resource_ne, Resource_eq.
  assert (H1 : (h ++ [v] ++ [v])%list !! length h = Some v).
  { by rewrite lookup_app_r, Nat.sub_diag. }
  assert (H2 : (h ++ [v] ++ [v])%list !! length (h ++ [v])%list = Some v).
  { rewrite length_app. simpl. rewrite lookup_app_r by lia.
    by replace (length h + 1 - length h)%nat with 1%nat by lia. }
  rewrite <- !app_assoc. rewrite H1, H2, Z.eqb_refl.
  split_and!; try done. rewrite length_app. simpl. lia.
Qed.

(** ** [add] on locals that are not a document *)


